(** * zap-ecs: field classification, HTTP nesting and header redaction

    A shallow embedding of the logging layer of [lggomez/zap-ecs]:
    - [logger.go]: [reduceKey], [fieldAccumulators], [appendField],
      [emitLogFields], [encodeFields] and the per-level log methods;
    - [ecs/ecs_keys.go], [ecs/fields_ecs.go]: the key tables, the field
      constructors and [SanitizeHeaders];
    - [internal/objects]: [IsNilValue], the HTTP mapper and its nil guards,
      [getValueAsString], and the JSON document of the HTTP object.

    Go strings are byte strings, and so are Rocq's: a [string] is a list of
    [ascii] bytes.  Go maps that the code ranges over and writes to are
    [gmap]s living in a store of header objects, so that what a callee writes
    is seen by the caller. *)

From Stdlib Require Import Ascii String ZArith.
From stdpp Require Import base gmap strings list fin_maps.

(** ** The Go standard library, as far as the code uses it *)

Module strings.

(** [strings.HasPrefix(s, prefix)]. *)
Definition HasPrefix (s prefix : string) : bool := String.prefix prefix s.

(** [strings.Split(s, sep)] for a separator of one byte, which is what
    [reduceKey] passes. The result is never empty: splitting the empty
    string gives the one-element list holding the empty string. *)
Fixpoint splitFrom (s : string) (sep : ascii) : string * list string :=
  match s with
  | EmptyString => (EmptyString, [])
  | String c s' =>
      let '(tok, toks) := splitFrom s' sep in
      if Ascii.eqb c sep then (EmptyString, tok :: toks)
      else (String c tok, toks)
  end.

Definition Split (s : string) (sep : ascii) : list string :=
  let '(tok, toks) := splitFrom s sep in tok :: toks.

(** [strings.Join(elems, sep)]. *)
Definition Join (elems : list string) (sep : string) : string :=
  String.concat sep elems.

(** Lower-casing of one byte: the letters [A]..[Z] move to [a]..[z]. *)
Definition lowerByte (c : ascii) : ascii :=
  let n := nat_of_ascii c in
  if (65 <=? n)%nat && (n <=? 90)%nat then ascii_of_nat (n + 32) else c.

(** The ASCII path of [strings.ToLower]: byte by byte. *)
Fixpoint lowerASCII (s : string) : string :=
  match s with
  | EmptyString => EmptyString
  | String c s' => String (lowerByte c) (lowerASCII s')
  end.

(** Every byte of [s] is below [utf8.RuneSelf], that is 0x80. *)
Fixpoint isASCII (s : string) : bool :=
  match s with
  | EmptyString => true
  | String c s' => (nat_of_ascii c <? 128)%nat && isASCII s'
  end.

(** [strings.ToLower(s)].  A string of ASCII bytes is lower-cased byte by
    byte.  Any other string goes through [strings.Map(unicode.ToLower, s)],
    which decodes runes and looks them up in the Unicode tables of the Go
    library (U+212A, the Kelvin sign, becomes [k]); those tables are not
    part of the model, which takes the mapping as [mapRunes] and says
    nothing about it. *)
Definition ToLower (mapRunes : string -> string) (s : string) : string :=
  if isASCII s then lowerASCII s else mapRunes s.

End strings.

(** A panic of the Go runtime ends the call; [Ok] is a normal return. *)
Inductive result (A : Type) : Type :=
| Ok (a : A)
| Panic (msg : string).
Arguments Ok {A} a.
Arguments Panic {A} msg.

(** ** zap fields *)

(** Header objects ([http.Header], a Go map) are referred to by address. *)
Definition loc := positive.

Module zapcore.

(** [zapcore.FieldType]. *)
Inductive FieldType : Set :=
  | UnknownType | ArrayMarshalerType | ObjectMarshalerType | BinaryType
  | BoolType | ByteStringType | Complex128Type | Complex64Type | DurationType
  | Float64Type | Float32Type | Int64Type | Int32Type | Int16Type | Int8Type
  | StringType | TimeType | TimeFullType | Uint64Type | Uint32Type
  | Uint16Type | Uint8Type | UintptrType | ReflectType | NamespaceType
  | StringerType | ErrorType | SkipType | InlineMarshalerType.

(** The dynamic value held by [Field.Interface]. The kinds the code tells
    apart have a constructor of their own; every other value is [Other],
    which carries the text [fmt]'s [%v] prints for it. *)
Inductive iface : Type :=
  | Nil                              (* the nil interface *)
  | NilOf (rendered : string)        (* a nil pointer, map, chan or func *)
  | StringSlice (l : list string)    (* []string *)
  | StringArray (l : list string)    (* zap's stringArray, made by zap.Strings *)
  | HeaderSlice (l : list loc)       (* []http.Header *)
  | GoString (s : string)            (* string *)
  | Other (rendered : string).

(** [zapcore.Field]. *)
Record Field : Type := mkField {
  Key : string;
  Type_ : FieldType;
  Integer : Z;
  String : string;
  Interface : iface
}.

End zapcore.

Abbreviation Field := zapcore.Field.

#[global] Instance FieldType_eq_dec : EqDecision zapcore.FieldType.
Proof. solve_decision. Defined.
#[global] Instance iface_eq_dec : EqDecision zapcore.iface.
Proof. solve_decision. Defined.
#[global] Instance Field_eq_dec : EqDecision Field.
Proof. solve_decision. Defined.

Module zap.

(** [zap.String(key, val)]. *)
Definition String (key val : string) : Field :=
  zapcore.mkField key zapcore.StringType 0 val zapcore.Nil.

(** [zap.Strings(key, ss)]: an array field over zap's own [stringArray]. *)
Definition Strings (key : string) (ss : list string) : Field :=
  zapcore.mkField key zapcore.ArrayMarshalerType 0 EmptyString
    (zapcore.StringArray ss).

(** [zap.Reflect(key, val)]. *)
Definition Reflect (key : string) (val : zapcore.iface) : Field :=
  zapcore.mkField key zapcore.ReflectType 0 EmptyString val.

(** [zap.Stringp(key, nil)], which zap turns into [Reflect(key, nil)]. *)
Definition Stringp_nil (key : string) : Field := Reflect key zapcore.Nil.

End zap.

(** [fmt.Sprintf("%v", v)] on the values of [iface]. A header list never
    gets here: [getValueAsString] renders it through [SanitizeHeaders]. *)
Definition Sprintf_v (v : zapcore.iface) : string :=
  match v with
  | zapcore.Nil => "<nil>"
  | zapcore.NilOf rendered => rendered
  | zapcore.StringSlice l | zapcore.StringArray l =>
      "[" +:+ strings.Join l " " +:+ "]"
  | zapcore.HeaderSlice _ => EmptyString
  | zapcore.GoString s => s
  | zapcore.Other rendered => rendered
  end.

(** Modelled from the spec: the [Level] type and its [String] method are
    declared in a file that is not among the sources; [logger.go] uses the
    six level names below, and the spec calls the rendered text the
    "severity-name". The names are those of zap's levels. *)
Inductive Level : Set :=
| DebugLevel | InfoLevel | WarnLevel | ErrorLevel | PanicLevel | FatalLevel.

Definition Level_String (l : Level) : string :=
  match l with
  | DebugLevel => "debug"
  | InfoLevel => "info"
  | WarnLevel => "warn"
  | ErrorLevel => "error"
  | PanicLevel => "panic"
  | FatalLevel => "fatal"
  end.

(** ** The store of header objects and the log call's effects *)

(** An [http.Header] is a Go map from header names to value lists. *)
Abbreviation header := (gmap string (list string)).

(** The part of the program state the code reads and writes: the header
    objects by address, and what the Go runtime and library decide.  The
    runtime visits the keys of a map in an order of its own each time a map
    is ranged over: [rangeOrder n h] is the order of the [n]-th range
    statement executed, over a map holding [h], and [tick] counts the range
    statements so far.  The library lower-cases the strings that are not
    ASCII with its Unicode tables: [unicodeLower]. *)
Record world : Type := mkWorld {
  heap : gmap loc header;
  rangeOrder : nat -> header -> list string;
  tick : nat;
  unicodeLower : string -> string
}.

(** A runtime is sound when every range statement visits each key of the
    map once. *)
Definition range_visits_keys (w : world) : Prop :=
  forall n (h : header), rangeOrder w n h ≡ₚ (map_to_list h).*1.

(** Computations that read and write the world and may panic. *)
Definition M (A : Type) : Type := world -> result (A * world).

Definition ret {A} (a : A) : M A := fun w => Ok (a, w).

Definition bind {A B} (m : M A) (k : A -> M B) : M B :=
  fun w => match m w with
           | Ok (a, w') => k a w'
           | Panic msg => Panic msg
           end.

Notation "'let*' x ':=' m 'in' k" := (bind m (fun x => k))
  (at level 10, x pattern, m at level 100, k at level 200).

(** [for key := range header]: the keys, in the order the runtime picks.
    Ranging over a nil map visits nothing. *)
Definition mapRange (l : loc) : M (list string) :=
  fun w =>
    let h := default ∅ (heap w !! l) in
    Ok (rangeOrder w (tick w) h,
        mkWorld (heap w) (rangeOrder w) (S (tick w)) (unicodeLower w)).

(** [header[key]]: the value list, nil when the key is absent. *)
Definition mapLoad (l : loc) (key : string) : M (list string) :=
  fun w => Ok (default [] (default ∅ (heap w !! l) !! key), w).

(** [header[key] = v]: writes into the caller's map; on a nil map the
    runtime panics. *)
Definition mapStore (l : loc) (key : string) (v : list string) : M unit :=
  fun w =>
    match heap w !! l with
    | Some h =>
        Ok (tt, mkWorld (<[l := <[key := v]> h]> (heap w)) (rangeOrder w)
                  (tick w) (unicodeLower w))
    | None => Panic "assignment to entry in nil map"
    end.

(** [strings.ToLower(s)], with the tables of the library at hand. *)
Definition toLower (s : string) : M string :=
  fun w => Ok (strings.ToLower (unicodeLower w) s, w).

(** ** Package [ecs] *)

Module ecs.

(** Encoding keys ([ecs/ecs_keys.go]). *)
Definition FieldTimestamp := "@timestamp".
Definition FieldMessage := "message".
Definition FieldLabels := "labels".
Definition FieldTags := "tags".

Definition FieldLabelApplication := "application".
Definition FieldLabelService := "service".
Definition FieldLabelEnvironment := "environment".
Definition FieldLabelLibVersion := "lib_version".
Definition FieldLabelLibLanguage := "lib_language".
Definition FieldLabelPodName := "pod_name".
Definition FieldLabelNodeName := "node_name".

Definition FieldLogger := "log.logger".
Definition FieldLogLevel := "log.level".

Definition FieldServiceName := "service.name".

Definition FieldErrorMessage := "error.message".
Definition FieldStackTrace := "error.stack_trace".
Definition FieldErrorType := "error.type".

Definition FieldEventAction := "event.action".
Definition FieldEventKind := "event.kind".
Definition FieldEventCategory := "event.category".
Definition FieldEventModule := "event.module".
Definition FieldEventType := "event.type".
Definition FieldEventOriginal := "event.original".
Definition FieldEventOutcome := "event.outcome".

Definition FieldTraceID := "trace.id".

Definition FieldHTTPRequestBodyContent := "http.request.body.content".
Definition FieldHTTPRequestMethod := "http.request.method".
Definition FieldHTTPRequestBodyHeaders := "http.request.body.headers".
Definition FieldHTTPRequestReferrer := "http.request.referrer".
Definition FieldHTTPResponseBodyContent := "http.response.body.content".
Definition FieldHTTPResponseStatusCode := "http.response.status_code".
Definition FieldHTTPResponseBodyReferrer := "http.response.body.referrer".

(** The lookup set of ECS keys. *)
Definition ecsKeysMap : gset string :=
  list_to_set
    [ FieldTags;
      FieldLogger; FieldLogLevel; FieldLabelApplication; FieldLabelService;
      FieldLabelEnvironment; FieldLabelLibVersion; FieldLabelLibLanguage;
      FieldLabelPodName; FieldLabelNodeName;
      FieldServiceName;
      FieldErrorMessage; FieldStackTrace; FieldErrorType;
      FieldEventAction; FieldEventCategory; FieldEventModule; FieldEventType;
      FieldEventOriginal; FieldEventOutcome;
      FieldTraceID;
      FieldHTTPRequestBodyContent; FieldHTTPRequestMethod;
      FieldHTTPRequestBodyHeaders; FieldHTTPRequestReferrer;
      FieldHTTPResponseBodyContent; FieldHTTPResponseStatusCode;
      FieldHTTPResponseBodyReferrer ].

Definition IsECSFieldName (fieldName : string) : bool :=
  bool_decide (fieldName ∈ ecsKeysMap).

Definition LogPrefix := "log.".
Definition LogBaseLevelKey := "log".
Definition HTTPPrefix := "http.".
Definition HTTPBaseLevelKey := "http".
Definition EventPrefix := "event.".
Definition EventBaseLevelKey := "event".
Definition ErrorPrefix := "error.".
Definition ErrorBaseLevelKey := "error".
Definition TracePrefix := "trace.".
Definition TraceBaseLevelKey := "trace".

(** The header names whose values are hidden ([ecs/fields_ecs.go]). *)
Definition secretEcsKeysMap : gset string :=
  list_to_set
    [ "x-authorization"; "authorization"; "cookie"; "x-san-iatx-user-pass" ].

Definition secretPlaceholderValue := "SECRET".

(** The body of the inner loop of [SanitizeHeaders], over the keys of one
    header object. *)
Fixpoint sanitizeKeys (header : loc) (keys : list string)
    (plainHeaders : list string) : M (list string) :=
  match keys with
  | [] => ret plainHeaders
  | key :: keys' =>
      let* lowered := toLower key in
      let* _ :=
        (if bool_decide (lowered ∈ secretEcsKeysMap)
         then mapStore header key [secretPlaceholderValue]
         else ret tt) in
      let* v := mapLoad header key in
      sanitizeKeys header keys'
        (plainHeaders ++ [key +:+ "=" +:+ strings.Join v ","])
  end.

(** The outer loop of [SanitizeHeaders], over the header objects. *)
Fixpoint sanitizeEach (val : list loc) (plainHeaders : list string)
    : M (list string) :=
  match val with
  | [] => ret plainHeaders
  | header :: val' =>
      let* keys := mapRange header in
      let* plainHeaders' := sanitizeKeys header keys plainHeaders in
      sanitizeEach val' plainHeaders'
  end.

Definition SanitizeHeaders (val : list loc) : M (list string) :=
  sanitizeEach val [].

(** [ecs.Tags(val)]. *)
Definition Tags (val : list string) : Field :=
  zapcore.mkField FieldTags zapcore.SkipType 0 EmptyString
    (zapcore.StringSlice val).

Definition ServiceName (val : string) : Field := zap.String FieldServiceName val.
Definition EventAction (val : string) : Field := zap.String FieldEventAction val.
Definition TraceID (val : string) : Field := zap.String FieldTraceID val.

Definition HTTPRequestBodyContent (val : string) : Field :=
  zap.String FieldHTTPRequestBodyContent val.
Definition HTTPRequestMethod (val : string) : Field :=
  zap.String FieldHTTPRequestMethod val.
Definition HTTPRequestBodyHeaders (val : list loc) : M Field :=
  let* plainHeaders := SanitizeHeaders val in
  ret (zap.Strings FieldHTTPRequestBodyHeaders plainHeaders).
Definition HTTPRequestReferrer (val : string) : Field :=
  zap.String FieldHTTPRequestReferrer val.
Definition HTTPResponseBodyContent (val : string) : Field :=
  zap.String FieldHTTPResponseBodyContent val.
Definition HTTPResponseStatusCode (val : string) : Field :=
  zap.String FieldHTTPResponseStatusCode val.
Definition HTTPResponseBodyReferrer (val : string) : Field :=
  zap.String FieldHTTPResponseBodyReferrer val.

Definition EventKind (val : string) : Field := zap.String FieldEventKind val.
Definition EventCategory (val : string) : Field :=
  zap.String FieldEventCategory val.
Definition EventModule (val : string) : Field := zap.String FieldEventModule val.
Definition EventType (val : string) : Field := zap.String FieldEventType val.
Definition EventOriginal (val : string) : Field :=
  zap.String FieldEventOriginal val.
Definition EventOutcome (val : string) : Field :=
  zap.String FieldEventOutcome val.

(** [ecs.Err(err)]; an error value is the text its [Error] method gives,
    and [None] is the nil error. *)
Definition Err (err : option string) : Field :=
  match err with
  | Some msg => zap.String FieldErrorMessage msg
  | None => zap.Stringp_nil FieldErrorMessage
  end.

End ecs.

(** ** Package [internal/objects] *)

(** The double quote of JSON text. *)
Definition dq : string := String "034"%char EmptyString.

Module json.

Definition hexDigit (n : nat) : ascii :=
  match n with
  | 0 => "0" | 1 => "1" | 2 => "2" | 3 => "3" | 4 => "4" | 5 => "5"
  | 6 => "6" | 7 => "7" | 8 => "8" | 9 => "9" | 10 => "a" | 11 => "b"
  | 12 => "c" | 13 => "d" | 14 => "e" | _ => "f"
  end%char.

(** One byte of a JSON string as json-iterator's fastest configuration
    writes it (no HTML escaping): quote and backslash get a backslash,
    newline, carriage return and tab their letter, any other byte below
    0x20 the [\u00XX] form, and every other byte is copied. *)
Definition escapeByte (c : ascii) : string :=
  let n := nat_of_ascii c in
  if Ascii.eqb c "034" || Ascii.eqb c "092" then String "092" (String c EmptyString)
  else if Ascii.eqb c "010" then String "092" "n"
  else if Ascii.eqb c "013" then String "092" "r"
  else if Ascii.eqb c "009" then String "092" "t"
  else if (n <? 32)%nat then
    String "092" ("u00" +:+ String (hexDigit (n / 16)) (String (hexDigit (n mod 16)) EmptyString))
  else String c EmptyString.

Fixpoint escape (s : string) : string :=
  match s with
  | EmptyString => EmptyString
  | String c s' => escapeByte c +:+ escape s'
  end.

(** A JSON string literal. *)
Definition WriteString (s : string) : string := dq +:+ escape s +:+ dq.

(** A struct member tagged [omitempty] whose Go type is [string]: left out
    when the string is empty. *)
Definition stringMember (name val : string) : list string :=
  if String.eqb val EmptyString then []
  else [dq +:+ name +:+ dq +:+ ":" +:+ WriteString val].

(** A struct member tagged [omitempty] whose Go type is a pointer: left out
    when the pointer is nil, and only then. *)
Definition pointerMember (name : string) (val : option string) : list string :=
  match val with
  | None => []
  | Some doc => [dq +:+ name +:+ dq +:+ ":" +:+ doc]
  end.

(** A JSON object from its members. *)
Definition object (members : list string) : string :=
  "{" +:+ String.concat "," members +:+ "}".

End json.

Module objects.

(** [IsNilValue(v)]: nil, or a nil pointer, map, chan or func. *)
Definition IsNilValue (v : zapcore.iface) : bool :=
  match v with
  | zapcore.Nil | zapcore.NilOf _ => true
  | _ => false
  end.

(** The structs of [http_object.go]; a pointer member is an [option]. *)
Record HTTPBodyMarshalObject : Type := mkBody {
  BodyContent : string;
  Headers : string;
  StatusCode : string
}.

Record HTTPRequestMarshalObject : Type := mkRequest {
  Request_Body : option HTTPBodyMarshalObject;
  RequestMethod : string;
  RequestReferrer : string
}.

Record HTTPResponseMarshalObject : Type := mkResponse {
  Response_Body : option HTTPBodyMarshalObject;
  ResponseReferrer : string
}.

Record HTTPMarshalObject : Type := mkHTTP {
  Request : option HTTPRequestMarshalObject;
  Response : option HTTPResponseMarshalObject
}.

(** The zero values, [&HTTPBodyMarshalObject{}] and the like. *)
Definition zeroBody : HTTPBodyMarshalObject :=
  mkBody EmptyString EmptyString EmptyString.
Definition zeroRequest : HTTPRequestMarshalObject :=
  mkRequest None EmptyString EmptyString.
Definition zeroResponse : HTTPResponseMarshalObject :=
  mkResponse None EmptyString.
Definition zeroHTTP : HTTPMarshalObject := mkHTTP None None.

(** [requestNilGuard(object)]: allocates the request, then its body. *)
Definition requestNilGuard (object : HTTPMarshalObject) : HTTPMarshalObject :=
  let object :=
    match Request object with
    | None => mkHTTP (Some zeroRequest) (Response object)
    | Some _ => object
    end in
  match Request object with
  | Some r =>
      match Request_Body r with
      | None =>
          mkHTTP (Some (mkRequest (Some zeroBody) (RequestMethod r) (RequestReferrer r)))
            (Response object)
      | Some _ => object
      end
  | None => object
  end.

(** [responseNilGuard(object)]: allocates the response, then its body. *)
Definition responseNilGuard (object : HTTPMarshalObject) : HTTPMarshalObject :=
  let object :=
    match Response object with
    | None => mkHTTP (Request object) (Some zeroResponse)
    | Some _ => object
    end in
  match Response object with
  | Some r =>
      match Response_Body r with
      | None =>
          mkHTTP (Request object)
            (Some (mkResponse (Some zeroBody) (ResponseReferrer r)))
      | Some _ => object
      end
  | None => object
  end.

(** [getValueAsString(field)]. *)
Definition getValueAsString (field : Field) : M string :=
  if negb (String.eqb (zapcore.String field) EmptyString) then
    ret (zapcore.String field)
  else if negb (IsNilValue (zapcore.Interface field)) then
    match zapcore.Interface field with
    | zapcore.HeaderSlice headers =>
        let* plain := ecs.SanitizeHeaders headers in
        ret (Sprintf_v (zapcore.StringSlice plain))
    | v => ret (Sprintf_v v)
    end
  else ret (Sprintf_v (zapcore.Interface field)).

(** Assignments to the leaves, after the guard made the path to them. *)
Definition withRequest (f : HTTPRequestMarshalObject -> HTTPRequestMarshalObject)
    (object : HTTPMarshalObject) : HTTPMarshalObject :=
  mkHTTP (f <$> Request object) (Response object).

Definition withResponse (f : HTTPResponseMarshalObject -> HTTPResponseMarshalObject)
    (object : HTTPMarshalObject) : HTTPMarshalObject :=
  mkHTTP (Request object) (f <$> Response object).

Definition setRequestBody (f : HTTPBodyMarshalObject -> HTTPBodyMarshalObject)
    : HTTPMarshalObject -> HTTPMarshalObject :=
  withRequest (fun r =>
    mkRequest (f <$> Request_Body r) (RequestMethod r) (RequestReferrer r)).

Definition setResponseBody (f : HTTPBodyMarshalObject -> HTTPBodyMarshalObject)
    : HTTPMarshalObject -> HTTPMarshalObject :=
  withResponse (fun r => mkResponse (f <$> Response_Body r) (ResponseReferrer r)).

(** [HTTPECSMapper(field, object)]: the switch on the full key. *)
Definition HTTPECSMapper (field : Field) (object : HTTPMarshalObject)
    : M HTTPMarshalObject :=
  let key := zapcore.Key field in
  if String.eqb key ecs.FieldHTTPRequestBodyContent then
    let object := requestNilGuard object in
    let* v := getValueAsString field in
    ret (setRequestBody (fun b => mkBody v (Headers b) (StatusCode b)) object)
  else if String.eqb key ecs.FieldHTTPRequestBodyHeaders then
    let object := requestNilGuard object in
    let* v := getValueAsString field in
    ret (setRequestBody (fun b => mkBody (BodyContent b) v (StatusCode b)) object)
  else if String.eqb key ecs.FieldHTTPRequestMethod then
    let object := requestNilGuard object in
    let* v := getValueAsString field in
    ret (withRequest (fun r => mkRequest (Request_Body r) v (RequestReferrer r)) object)
  else if String.eqb key ecs.FieldHTTPRequestReferrer then
    let object := requestNilGuard object in
    let* v := getValueAsString field in
    ret (withRequest (fun r => mkRequest (Request_Body r) (RequestMethod r) v) object)
  else if String.eqb key ecs.FieldHTTPResponseBodyContent then
    let object := responseNilGuard object in
    let* v := getValueAsString field in
    ret (setResponseBody (fun b => mkBody v (Headers b) (StatusCode b)) object)
  else if String.eqb key ecs.FieldHTTPResponseStatusCode then
    let object := responseNilGuard object in
    let* v := getValueAsString field in
    ret (setResponseBody (fun b => mkBody (BodyContent b) (Headers b) v) object)
  else if String.eqb key ecs.FieldHTTPResponseBodyReferrer then
    let object := responseNilGuard object in
    let* v := getValueAsString field in
    ret (withResponse (fun r => mkResponse (Response_Body r) v) object)
  else ret object.

(** [json.Marshal] on the structs, member by member in declaration order,
    under their [json:"...,omitempty"] tags. *)
Definition marshalBody (b : HTTPBodyMarshalObject) : string :=
  json.object
    (json.stringMember "content" (BodyContent b) ++
     json.stringMember "headers" (Headers b) ++
     json.stringMember "status_code" (StatusCode b)).

Definition marshalRequest (r : HTTPRequestMarshalObject) : string :=
  json.object
    (json.pointerMember "body" (marshalBody <$> Request_Body r) ++
     json.stringMember "method" (RequestMethod r) ++
     json.stringMember "referrer" (RequestReferrer r)).

Definition marshalResponse (r : HTTPResponseMarshalObject) : string :=
  json.object
    (json.pointerMember "body" (marshalBody <$> Response_Body r) ++
     json.stringMember "referrer" (ResponseReferrer r)).

(** [json.Marshal(&f.target)]: the document and the error, which is nil
    for these structs of strings. *)
Definition Marshal (o : HTTPMarshalObject) : string * option string :=
  (json.object
     (json.pointerMember "request" (marshalRequest <$> Request o) ++
      json.pointerMember "response" (marshalResponse <$> Response o)),
   None).

(** [Object], the wrapper of [object.go] around a field list, and
    [AsObject(fields...)]. *)
Record Object : Type := mkObject { fields : list Field }.

Definition AsObject (fields : list Field) : Object := mkObject fields.

(** A [zap.Field] as the log methods hand it to zap: a field of the caller
    or of [zap.Strings], passed as it is; [zap.Object(key, o)] over an
    [Object]; or [zap.Any(key, json.RawMessage(data))]. *)
Inductive SinkField : Type :=
| Plain (f : Field)
| ObjectField (key : string) (o : Object)
| RawMessageField (key : string) (data : string).

(** The loop of [HTTPObject.MarshalJSON] over the fields. *)
Fixpoint mapFields (fields : list Field) (target : HTTPMarshalObject)
    : M HTTPMarshalObject :=
  match fields with
  | [] => ret target
  | field :: fields' =>
      let* target' := HTTPECSMapper field target in
      mapFields fields' target'
  end.

(** [HTTPObject.MarshalJSON], on the object [NestedObject] has just made
    (its target is the zero value). *)
Definition MarshalJSON (fields : list Field) : M (string * option string) :=
  let* target := mapFields fields zeroHTTP in
  ret (Marshal target).

(** [NestedObject(baseKey, HTTPECSMapper, fields...).AsField()]: the
    document as a raw JSON value, or the text of the error in its place. *)
Definition AsField (baseKey : string) (fields : list Field) : M SinkField :=
  let* marshaled := MarshalJSON fields in
  let data :=
    match snd marshaled with
    | Some msg => msg
    | None => fst marshaled
    end in
  ret (RawMessageField baseKey data).

End objects.

Abbreviation SinkField := objects.SinkField.

#[global] Instance Object_eq_dec : EqDecision objects.Object.
Proof. solve_decision. Defined.
#[global] Instance SinkField_eq_dec : EqDecision SinkField.
Proof. solve_decision. Defined.

(** The key a field is written under. *)
Definition sinkKey (f : SinkField) : string :=
  match f with
  | objects.Plain f => zapcore.Key f
  | objects.ObjectField key _ => key
  | objects.RawMessageField key _ => key
  end.

(** ** Package [zapecs] ([logger.go]) *)

(** The logger; its [*zap.Logger], the sink, stays outside. *)
Record zapECSLogger : Type := mkLogger {
  baseLoggerField : Field;
  baseTags : list string;
  baseLabels : list Field
}.

Record fieldAccumulators : Type := mkAccums {
  l : Level;
  labelsFieldsAccum : list Field;
  logFieldsAccum : list Field;
  httpFieldsAccum : list Field;
  eventFieldsAccum : list Field;
  errorFieldsAccum : list Field;
  traceFieldsAccum : list Field
}.

(** [newFieldAccumulators(labelsSize, l)]: six empty slices; their
    capacities are not observable. *)
Definition newFieldAccumulators (labelsSize : nat) (l : Level) : fieldAccumulators :=
  mkAccums l [] [] [] [] [] [].

(** [reduceKey(field)]: the last element of the key split at its dots.
    [Split] returns at least one token, so the index is in range. *)
Definition reduceKey (field : Field) : Field :=
  let keyTokens := strings.Split (zapcore.Key field) "." in
  zapcore.mkField (default EmptyString (last keyTokens))
    (zapcore.Type_ field) (zapcore.Integer field) (zapcore.String field)
    (zapcore.Interface field).

(** [(a *fieldAccumulators) appendField(f)]. *)
Definition appendField (a : fieldAccumulators) (f : Field) : fieldAccumulators :=
  if strings.HasPrefix (zapcore.Key f) ecs.LogPrefix then
    mkAccums (l a) (labelsFieldsAccum a) (logFieldsAccum a ++ [reduceKey f])
      (httpFieldsAccum a) (eventFieldsAccum a) (errorFieldsAccum a)
      (traceFieldsAccum a)
  else if strings.HasPrefix (zapcore.Key f) ecs.HTTPPrefix then
    mkAccums (l a) (labelsFieldsAccum a) (logFieldsAccum a)
      (httpFieldsAccum a ++ [f]) (eventFieldsAccum a) (errorFieldsAccum a)
      (traceFieldsAccum a)
  else if strings.HasPrefix (zapcore.Key f) ecs.EventPrefix then
    mkAccums (l a) (labelsFieldsAccum a) (logFieldsAccum a)
      (httpFieldsAccum a) (eventFieldsAccum a ++ [reduceKey f])
      (errorFieldsAccum a) (traceFieldsAccum a)
  else if strings.HasPrefix (zapcore.Key f) ecs.ErrorPrefix then
    mkAccums (l a) (labelsFieldsAccum a) (logFieldsAccum a)
      (httpFieldsAccum a) (eventFieldsAccum a)
      (errorFieldsAccum a ++ [reduceKey f]) (traceFieldsAccum a)
  else if strings.HasPrefix (zapcore.Key f) ecs.TracePrefix then
    mkAccums (l a) (labelsFieldsAccum a) (logFieldsAccum a)
      (httpFieldsAccum a) (eventFieldsAccum a) (errorFieldsAccum a)
      (traceFieldsAccum a ++ [reduceKey f])
  else
    mkAccums (l a) (labelsFieldsAccum a ++ [reduceKey f]) (logFieldsAccum a)
      (httpFieldsAccum a) (eventFieldsAccum a) (errorFieldsAccum a)
      (traceFieldsAccum a).

(** [(a *fieldAccumulators) emitLogFields(baseLoggerField)]. *)
Definition emitLogFields (a : fieldAccumulators) (baseLoggerField : Field)
    : M (list SinkField) :=
  let logFieldsAccum :=
    logFieldsAccum a ++
      [reduceKey baseLoggerField;
       reduceKey (zap.String ecs.FieldLogLevel (Level_String (l a)))] in
  let* http := objects.AsField ecs.HTTPBaseLevelKey (httpFieldsAccum a) in
  ret [ objects.ObjectField ecs.LogBaseLevelKey (objects.AsObject logFieldsAccum);
        http;
        objects.ObjectField ecs.EventBaseLevelKey (objects.AsObject (eventFieldsAccum a));
        objects.ObjectField ecs.ErrorBaseLevelKey (objects.AsObject (errorFieldsAccum a));
        objects.ObjectField ecs.TraceBaseLevelKey (objects.AsObject (traceFieldsAccum a));
        objects.ObjectField ecs.FieldLabels (objects.AsObject (labelsFieldsAccum a)) ].

(** The state of the loop of [encodeFields]. *)
Record loopState : Type := mkLoop {
  processedFields : gset string;
  accums : fieldAccumulators;
  entryTags : list string
}.

(** One round of the loop of [encodeFields]. The assertion
    [field.Interface.([]string)] has no [ok] result: on any other dynamic
    type the runtime panics. *)
Definition encodeField (st : loopState) (field : Field) : result loopState :=
  if bool_decide (zapcore.Key field ∈ processedFields st) then Ok st
  else
    let processed := {[ zapcore.Key field ]} ∪ processedFields st in
    if ecs.IsECSFieldName (zapcore.Key field) then
      if String.eqb (zapcore.Key field) ecs.FieldTags then
        match zapcore.Interface field with
        | zapcore.Nil => Ok (mkLoop processed (accums st) (entryTags st))
        | zapcore.StringSlice tags =>
            Ok (mkLoop processed (accums st) (entryTags st ++ tags))
        | _ => Panic "interface conversion: interface {} is not []string"
        end
      else Ok (mkLoop processed (appendField (accums st) field) (entryTags st))
    else Ok (mkLoop processed (appendField (accums st) field) (entryTags st)).

(** The loop [for _, field := range fields]. *)
Fixpoint encodeLoop (fields : list Field) (st : loopState) : result loopState :=
  match fields with
  | [] => Ok st
  | field :: fields' =>
      match encodeField st field with
      | Ok st' => encodeLoop fields' st'
      | Panic msg => Panic msg
      end
  end.

Definition liftResult {A} (r : result A) : M A :=
  fun w => match r with
           | Ok a => Ok (a, w)
           | Panic msg => Panic msg
           end.

(** [(l zapECSLogger) encodeFields(fields, lvl)]. *)
Definition encodeFields (lg : zapECSLogger) (fields : list Field) (lvl : Level)
    : M (list SinkField) :=
  let* st :=
    liftResult
      (encodeLoop fields
         (mkLoop ∅ (newFieldAccumulators (length (baseLabels lg)) lvl)
            (baseTags lg))) in
  let logFields :=
    if (0 <? length (entryTags st))%nat
    then [objects.Plain (zap.Strings ecs.FieldTags (entryTags st))]
    else [] in
  let logFields := logFields ++ (objects.Plain <$> baseLabels lg) in
  let* emitted := emitLogFields (accums st) (baseLoggerField lg) in
  ret (logFields ++ emitted).

(** The log methods: what they pass to the method of the same name of the
    zap logger, the message and the encoded fields. *)
Definition Debug (lg : zapECSLogger) (msg : string) (fields : list Field)
    : M (string * list SinkField) :=
  let* filteredFields := encodeFields lg fields DebugLevel in
  ret (msg, filteredFields).

Definition Info (lg : zapECSLogger) (msg : string) (fields : list Field)
    : M (string * list SinkField) :=
  let* filteredFields := encodeFields lg fields InfoLevel in
  ret (msg, filteredFields).

Definition Warn (lg : zapECSLogger) (msg : string) (fields : list Field)
    : M (string * list SinkField) :=
  let* filteredFields := encodeFields lg fields WarnLevel in
  ret (msg, filteredFields).

Definition Error (lg : zapECSLogger) (msg : string) (fields : list Field)
    : M (string * list SinkField) :=
  let* filteredFields := encodeFields lg fields ErrorLevel in
  ret (msg, filteredFields).

Definition Panic_ (lg : zapECSLogger) (msg : string) (fields : list Field)
    : M (string * list SinkField) :=
  let* filteredFields := encodeFields lg fields PanicLevel in
  ret (msg, filteredFields).

Definition Fatal (lg : zapECSLogger) (msg : string) (fields : list Field)
    : M (string * list SinkField) :=
  let* filteredFields := encodeFields lg fields FatalLevel in
  ret (msg, filteredFields).

(** ** The vocabulary of the specification *)

(** The six buckets, and the slice of the accumulators that holds each. *)
Inductive bucket : Set :=
| LabelsBucket | LogBucket | HTTPBucket | EventBucket | ErrorBucket | TraceBucket.

#[global] Instance bucket_eq_dec : EqDecision bucket.
Proof. solve_decision. Defined.

Definition bucketOf (b : bucket) (a : fieldAccumulators) : list Field :=
  match b with
  | LabelsBucket => labelsFieldsAccum a
  | LogBucket => logFieldsAccum a
  | HTTPBucket => httpFieldsAccum a
  | EventBucket => eventFieldsAccum a
  | ErrorBucket => errorFieldsAccum a
  | TraceBucket => traceFieldsAccum a
  end.

(** The routing table as the specification words it: the recognized
    dotted prefixes in their priority order; the first match wins, and a
    key that matches none goes to the labels. *)
Definition prefixTable : list (string * bucket) :=
  [ ("log.", LogBucket); ("http.", HTTPBucket); ("event.", EventBucket);
    ("error.", ErrorBucket); ("trace.", TraceBucket) ].

Definition route (key : string) : bucket :=
  match List.find (fun pb => strings.HasPrefix key (fst pb)) prefixTable with
  | Some pb => snd pb
  | None => LabelsBucket
  end.

(** [s] holds no dot. *)
Definition dotFree (s : string) : Prop :=
  "."%char ∉ list_ascii_of_string s.

(** [k'] is the substring of [k] after its final dot: all of [k] when [k]
    has no dot. *)
Definition afterFinalDot (k k' : string) : Prop :=
  (dotFree k ∧ k' = k) ∨ (∃ p, k = p +:+ "." +:+ k' ∧ dotFree k').

(** A field under another key. *)
Definition withKey (key : string) (f : Field) : Field :=
  zapcore.mkField key (zapcore.Type_ f) (zapcore.Integer f) (zapcore.String f)
    (zapcore.Interface f).

(** The call fields with, of each key, the first occurrence only. *)
Fixpoint firstByKey (fields : list Field) : list Field :=
  match fields with
  | [] => []
  | f :: fields' =>
      f :: filter (fun g => zapcore.Key g ≠ zapcore.Key f) (firstByKey fields')
  end.

(** The tags field at the head of the output, present when there are tags. *)
Definition tagsField (tags : list string) : list SinkField :=
  match tags with
  | [] => []
  | _ => [objects.Plain (zap.Strings ecs.FieldTags tags)]
  end.

(** A runtime that visits the keys of every map in the order of
    [map_to_list], over the store [σ]; its mapping of non-ASCII strings
    is never asked in the examples, whose names are ASCII. *)
Definition sortedRuntime (σ : gmap loc header) : world :=
  mkWorld σ (fun _ h => (map_to_list h).*1) 0 (fun s => s).

(** The header name is one of the secret ones once lower-cased; [lower]
    is the mapping of the library for the names that are not ASCII. *)
Definition secret (lower : string → string) (key : string) : bool :=
  bool_decide (strings.ToLower lower key ∈ ecs.secretEcsKeysMap).

(** A header object after one more of its keys was visited. *)
Definition redactStep (lower : string → string) (h : header) (key : string)
    : header :=
  if secret lower key then <[key := [ecs.secretPlaceholderValue]]> h else h.

(** A header object with the value of every secret header replaced. *)
Definition redact (lower : string → string) (h : header) : header :=
  map_imap
    (fun key v =>
       Some (if secret lower key then [ecs.secretPlaceholderValue] else v))
    h.

(** The text of one header: [name=SECRET] for a secret one, and the name
    with its values, joined by commas, for any other. *)
Definition plainHeader (lower : string → string) (key : string)
    (v : list string) : string :=
  if secret lower key then key +:+ "=SECRET"
  else key +:+ "=" +:+ strings.Join v ",".

(** The text [sanitizeKeys] appends for one key, as read in [h]. *)
Definition plainEntry (lower : string → string) (h : header) (key : string)
    : string :=
  plainHeader lower key (default [] (h !! key)).

(** The texts of the headers of one object, and of the objects at [val]
    as read in [σ]. *)
Definition plainHeadersIn (lower : string → string) (h : header)
    : list string :=
  (fun kv => plainHeader lower (fst kv) (snd kv)) <$> map_to_list h.

Definition plainHeadersOf (lower : string → string) (σ : gmap loc header)
    (val : list loc) : list string :=
  val ≫= fun l => plainHeadersIn lower (default ∅ (σ !! l)).

(** A computation that, under a sound runtime, returns a value satisfying
    [P] and leaves the choices of the runtime and the tables of the library
    as they are. *)
Definition returns {A} (P : A → Prop) (m : M A) : Prop :=
  ∀ w, range_visits_keys w →
    ∃ a w', m w = Ok (a, w') ∧ rangeOrder w' = rangeOrder w ∧
            unicodeLower w' = unicodeLower w ∧ P a.

(** The claim of C5 as it is worded: a field whose key has no recognized
    prefix is put into the labels under its full key. *)
Definition labelled_under_full_key (a : fieldAccumulators) (f : Field) : Prop :=
  labelsFieldsAccum (appendField a f) = labelsFieldsAccum a ++ [f].

(** A name or a text between double quotes, as in a JSON document. *)
Definition quoted (s : string) : string := dq +:+ s +:+ dq.

(** The claim of C2 as it is worded: a base label whose key is also the key
    of a call field comes later in the joint order, and is discarded. *)
Definition jointly_deduplicated (lg : zapECSLogger) (fields : list Field)
    (out : list SinkField) : Prop :=
  ∀ b, b ∈ baseLabels lg →
    zapcore.Key b ∈ (zapcore.Key <$> fields) →
    objects.Plain b ∉ out.

(** The claim of C3 as it is worded: after the tags and the base labels,
    the labels bucket comes first of the six. *)
Definition labels_bucket_first (lg : zapECSLogger) (out : list SinkField) : Prop :=
  ∃ tags, (tags = [] ∨ tags = [ecs.FieldTags]) ∧
    sinkKey <$> out =
      tags ++ (zapcore.Key <$> baseLabels lg) ++
      ["labels"; "log"; "http"; "event"; "error"; "trace"].

(** The claim of C4 as it is worded: the document of an HTTP bucket that
    holds the request method only. *)
Definition documentWithoutBody : string :=
  "{" +:+ quoted "request" +:+ ":{" +:+ quoted "method" +:+ ":" +:+
  quoted "POST" +:+ "}}".

(** The state the loop of [encodeFields] starts from. *)
Definition initialLoop (lg : zapECSLogger) (lvl : Level) : loopState :=
  mkLoop ∅ (newFieldAccumulators (length (baseLabels lg)) lvl) (baseTags lg).

(** The six bucket fields in the order [emitLogFields] appends them, for
    the accumulators [a] and the HTTP document [data]. *)
Definition bucketFields (lg : zapECSLogger) (a : fieldAccumulators)
    (data : string) : list SinkField :=
  [ objects.ObjectField "log"
      (objects.AsObject
         (logFieldsAccum a ++
          [reduceKey (baseLoggerField lg);
           reduceKey (zap.String ecs.FieldLogLevel (Level_String (l a)))]));
    objects.RawMessageField "http" data;
    objects.ObjectField "event" (objects.AsObject (eventFieldsAccum a));
    objects.ObjectField "error" (objects.AsObject (errorFieldsAccum a));
    objects.ObjectField "trace" (objects.AsObject (traceFieldsAccum a));
    objects.ObjectField "labels" (objects.AsObject (labelsFieldsAccum a)) ].

(** The call field that decides the tags: the first one under the tag
    key. *)
Definition firstTag (fields : list Field) : option Field :=
  List.find (fun f => String.eqb (zapcore.Key f) ecs.FieldTags) fields.

(** The payloads the loop of [encodeFields] takes from a tag field: nil
    and a [[]string]. *)
Definition tagPayloadOk (v : zapcore.iface) : bool :=
  match v with
  | zapcore.Nil | zapcore.StringSlice _ => true
  | _ => false
  end.

(** The tags a call adds to the base tags. *)
Definition callTags (fields : list Field) : list string :=
  match firstTag fields with
  | Some f =>
      match zapcore.Interface f with
      | zapcore.StringSlice tags => tags
      | _ => []
      end
  | None => []
  end.

(** A field as the bucket [b] holds it. *)
Definition storedIn (b : bucket) (f : Field) : Field :=
  if decide (b = HTTPBucket) then f else reduceKey f.

(** The keys the HTTP mapper knows, by the node they write under. *)
Definition requestKeys : list string :=
  [ ecs.FieldHTTPRequestBodyContent; ecs.FieldHTTPRequestBodyHeaders;
    ecs.FieldHTTPRequestMethod; ecs.FieldHTTPRequestReferrer ].

Definition responseKeys : list string :=
  [ ecs.FieldHTTPResponseBodyContent; ecs.FieldHTTPResponseStatusCode;
    ecs.FieldHTTPResponseBodyReferrer ].

(** The leaf of the HTTP object a key stands for, read as Go reads a
    string member: empty when a node on the way is nil, and for a key the
    mapper does not know. *)
Definition requestBody (o : objects.HTTPMarshalObject)
    : option objects.HTTPBodyMarshalObject :=
  objects.Request o ≫= objects.Request_Body.

Definition responseBody (o : objects.HTTPMarshalObject)
    : option objects.HTTPBodyMarshalObject :=
  objects.Response o ≫= objects.Response_Body.

Definition leafValue (key : string) (o : objects.HTTPMarshalObject) : string :=
  if String.eqb key ecs.FieldHTTPRequestBodyContent then
    default EmptyString (objects.BodyContent <$> requestBody o)
  else if String.eqb key ecs.FieldHTTPRequestBodyHeaders then
    default EmptyString (objects.Headers <$> requestBody o)
  else if String.eqb key ecs.FieldHTTPRequestMethod then
    default EmptyString (objects.RequestMethod <$> objects.Request o)
  else if String.eqb key ecs.FieldHTTPRequestReferrer then
    default EmptyString (objects.RequestReferrer <$> objects.Request o)
  else if String.eqb key ecs.FieldHTTPResponseBodyContent then
    default EmptyString (objects.BodyContent <$> responseBody o)
  else if String.eqb key ecs.FieldHTTPResponseStatusCode then
    default EmptyString (objects.StatusCode <$> responseBody o)
  else if String.eqb key ecs.FieldHTTPResponseBodyReferrer then
    default EmptyString (objects.ResponseReferrer <$> objects.Response o)
  else EmptyString.

(** Every request and response node of the object has its body node. *)
Definition bodiesAllocated (o : objects.HTTPMarshalObject) : Prop :=
  (∀ r, objects.Request o = Some r → is_Some (objects.Request_Body r)) ∧
  (∀ r, objects.Response o = Some r → is_Some (objects.Response_Body r)).

(** The call fields a bucket takes: of the first occurrences, those that
    are not under the tag key and are routed to the bucket, in call order. *)
Definition bucketSources (b : bucket) (fields : list Field) : list Field :=
  filter (fun f => zapcore.Key f ≠ ecs.FieldTags ∧ route (zapcore.Key f) = b)
    (firstByKey fields).

(** What a bucket ends up with: the call fields it takes, each as the
    bucket holds it. *)
Definition bucketOfCall (b : bucket) (fields : list Field) : list Field :=
  storedIn b <$> bucketSources b fields.

(** The strings the loop of [encodeFields] takes from a tag field. *)
Definition tagPayload (f : Field) : list string :=
  match zapcore.Interface f with
  | zapcore.StringSlice tags => tags
  | _ => []
  end.

(** A constructor of string fields whose fields [appendField] puts into
    the bucket [b], and into no other, under the key [key]. *)
Definition routesTo (ctor : string → Field) (b : bucket) (key : string) : Prop :=
  ∀ a val b',
    bucketOf b' (appendField a (ctor val)) =
      if decide (b' = b) then bucketOf b' a ++ [zap.String key val]
      else bucketOf b' a.

(** The output of a call at the level [lvl], given what does not depend
    on the level: the fields before the [log] object, the fields of that
    object before the level field, and the fields after it. *)
Definition outputAt (pre : list SinkField) (logs : list Field)
    (post : list SinkField) (lvl : Level) : list SinkField :=
  pre ++
  objects.ObjectField "log"
    (objects.AsObject (logs ++ [zap.String "level" (Level_String lvl)]))
  :: post.

(** ** Splitting keys *)

Section split.

(** String concatenation, pushed through the constructors of its left
    operand. *)
Ltac push_append :=
  repeat first
    [ progress change (String.append EmptyString ?x) with x in *
    | progress change (String.append (String ?c ?p) ?x)
        with (String c (String.append p x)) in * ].

Lemma splitFrom_dotFree s :
  dotFree s → strings.splitFrom s "." = (s, []).
Proof.
  unfold dotFree. induction s as [|c s IH]; simpl; [done|].
  intros Hin. apply not_elem_of_cons in Hin as [Hc Hs].
  rewrite (IH Hs).
  destruct (Ascii.eqb_spec c "."%char) as [->|Hne]; [done|done].
Qed.

Lemma splitFrom_app p s :
  strings.splitFrom (p +:+ "." +:+ s) "." =
    (fst (strings.splitFrom p "."),
     snd (strings.splitFrom p ".") ++ strings.Split s ".").
Proof.
  induction p as [|c p IH]; push_append; simpl.
  - unfold strings.Split. by destruct (strings.splitFrom s ".").
  - rewrite IH. destruct (strings.splitFrom p ".") as [t ts]; simpl.
    by destruct (Ascii.eqb c ".").
Qed.

Lemma Split_nonempty s sep : strings.Split s sep ≠ [].
Proof. unfold strings.Split. by destruct (strings.splitFrom s sep). Qed.

Lemma Split_dotFree s : dotFree s → strings.Split s "." = [s].
Proof. intros H. unfold strings.Split. by rewrite splitFrom_dotFree. Qed.

Lemma Split_app_last p s :
  dotFree s → last (strings.Split (p +:+ "." +:+ s) ".") = Some s.
Proof.
  intros H. unfold strings.Split at 1. rewrite splitFrom_app.
  rewrite Split_dotFree by done.
  destruct (strings.splitFrom p ".") as [t ts]; simpl.
  change (t :: ts ++ [s]) with ((t :: ts) ++ [s]). by rewrite last_snoc.
Qed.

Lemma dotFree_cons c s : c ≠ "."%char → dotFree s → dotFree (String c s).
Proof.
  unfold dotFree. simpl. intros Hc Hs Hin.
  apply elem_of_cons in Hin as [?|?]; [congruence|done].
Qed.

(** Every key has a substring after its final dot, and the last token of
    the split key is that substring. *)
Lemma Split_last_afterFinalDot k :
  ∃ k', last (strings.Split k ".") = Some k' ∧ afterFinalDot k k'.
Proof.
  induction k as [|c k (k' & Hlast & Hk)].
  - exists EmptyString. split; [done|]. left. split; [|done].
    unfold dotFree. simpl. apply not_elem_of_nil.
  - destruct (Ascii.eqb_spec c "."%char) as [->|Hne].
    + exists k'. split.
      * change (String "." k) with (EmptyString +:+ "." +:+ k).
        destruct Hk as [[Hfree ->]|(p & -> & Hfree)].
        -- by apply Split_app_last.
        -- change (EmptyString +:+ "." +:+ p +:+ "." +:+ k')
             with ((String "." p) +:+ "." +:+ k').
           by apply Split_app_last.
      * right. destruct Hk as [[Hfree ->]|(p & -> & Hfree)].
        -- by exists EmptyString.
        -- by exists (String "." p).
    + destruct Hk as [[Hfree ->]|(p & -> & Hfree)].
      * exists (String c k). split.
        -- rewrite Split_dotFree; [done|]. by apply dotFree_cons.
        -- left. split; [|done]. by apply dotFree_cons.
      * exists k'. split.
        -- change (String c (p +:+ "." +:+ k'))
             with ((String c p) +:+ "." +:+ k').
           by apply Split_app_last.
        -- right. by exists (String c p).
Qed.

Lemma reduceKey_withKey f :
  ∃ k', afterFinalDot (zapcore.Key f) k' ∧ reduceKey f = withKey k' f.
Proof.
  destruct (Split_last_afterFinalDot (zapcore.Key f)) as (k' & Hlast & Hk).
  exists k'. split; [done|]. unfold reduceKey, withKey. by rewrite Hlast.
Qed.

End split.

(** ** Routing of one field *)

Section routing.

(** [appendField] adds the field to the bucket of its route and to no
    other; the HTTP bucket gets it as it is, the others under its reduced
    key. *)
Lemma appendField_bucketOf a f b :
  bucketOf b (appendField a f) =
    if decide (b = route (zapcore.Key f))
    then bucketOf b a ++ [if decide (b = HTTPBucket) then f else reduceKey f]
    else bucketOf b a.
Proof.
  unfold appendField, route, prefixTable, ecs.LogPrefix, ecs.HTTPPrefix,
    ecs.EventPrefix, ecs.ErrorPrefix, ecs.TracePrefix.
  simpl.
  repeat (destruct (strings.HasPrefix _ _); [by destruct b|]).
  by destruct b.
Qed.

Lemma appendField_level a f : l (appendField a f) = l a.
Proof.
  unfold appendField.
  repeat (destruct (strings.HasPrefix _ _); [done|]). done.
Qed.

Lemma route_labels key :
  Forall (fun p => strings.HasPrefix key p = false)
    [ecs.LogPrefix; ecs.HTTPPrefix; ecs.EventPrefix; ecs.ErrorPrefix;
     ecs.TracePrefix] →
  route key = LabelsBucket.
Proof.
  intros H. repeat (apply Forall_cons in H as [? H]).
  unfold route, prefixTable. simpl.
  unfold ecs.LogPrefix, ecs.HTTPPrefix, ecs.EventPrefix, ecs.ErrorPrefix,
    ecs.TracePrefix in *.
  by repeat match goal with Hp : strings.HasPrefix _ _ = false |- _ =>
    rewrite Hp; clear Hp end.
Qed.

(** A field that was not seen before and is not under the tag key is
    appended, whether its key is an ECS key or not. *)
Lemma encodeField_fresh st field :
  zapcore.Key field ∉ processedFields st →
  zapcore.Key field ≠ ecs.FieldTags →
  encodeField st field =
    Ok (mkLoop ({[ zapcore.Key field ]} ∪ processedFields st)
          (appendField (accums st) field) (entryTags st)).
Proof.
  intros Hnew Htag. unfold encodeField.
  rewrite bool_decide_eq_false_2 by done.
  destruct (String.eqb_spec (zapcore.Key field) ecs.FieldTags); [done|].
  by destruct (ecs.IsECSFieldName _).
Qed.

Lemma encodeField_seen st field :
  zapcore.Key field ∈ processedFields st → encodeField st field = Ok st.
Proof. intros H. unfold encodeField. by rewrite bool_decide_eq_true_2. Qed.

Lemma IsECSFieldName_tags : ecs.IsECSFieldName ecs.FieldTags = true.
Proof. vm_compute. reflexivity. Qed.

(** The round of the loop on a field under the tag key, first of its key:
    the switch on the payload. *)
Lemma encodeField_tag st f :
  zapcore.Key f = ecs.FieldTags →
  ecs.FieldTags ∉ processedFields st →
  encodeField st f =
    match zapcore.Interface f with
    | zapcore.Nil =>
        Ok (mkLoop ({[ ecs.FieldTags ]} ∪ processedFields st) (accums st)
              (entryTags st))
    | zapcore.StringSlice tags =>
        Ok (mkLoop ({[ ecs.FieldTags ]} ∪ processedFields st) (accums st)
              (entryTags st ++ tags))
    | _ => Panic "interface conversion: interface {} is not []string"
    end.
Proof.
  intros Hkey Hfresh. unfold encodeField. rewrite Hkey.
  rewrite bool_decide_eq_false_2 by exact Hfresh.
  rewrite IsECSFieldName_tags, String.eqb_refl. reflexivity.
Qed.

End routing.

(** ** The loop over the call fields *)

Section loop.

Lemma encodeField_processed st f st' :
  encodeField st f = Ok st' →
  processedFields st ⊆ processedFields st' ∧
  zapcore.Key f ∈ processedFields st'.
Proof.
  unfold encodeField. case_bool_decide as Hseen.
  - intros [= <-]. done.
  - destruct (ecs.IsECSFieldName _); [destruct (String.eqb _ _)|];
      [destruct (zapcore.Interface f)|..];
      intros [= <-]; simpl; set_solver.
Qed.

(** Fields under a key that was seen already may be left out. *)
Lemma encodeLoop_filter_seen k fields st :
  k ∈ processedFields st →
  encodeLoop (filter (fun g => zapcore.Key g ≠ k) fields) st =
    encodeLoop fields st.
Proof.
  revert st. induction fields as [|g fields IH]; intros st Hk; [done|].
  rewrite filter_cons. case_decide as Hg; simpl.
  - destruct (encodeField st g) as [st'|] eqn:Hst; [|done].
    apply IH. apply encodeField_processed in Hst as [Hsub _]. set_solver.
  - rewrite encodeField_seen by (by rewrite Hg).
    by apply IH.
Qed.

Lemma encodeLoop_firstByKey fields st :
  encodeLoop (firstByKey fields) st = encodeLoop fields st.
Proof.
  revert st. induction fields as [|f fields IH]; intros st; [done|].
  simpl. destruct (encodeField st f) as [st'|] eqn:Hst; [|done].
  apply encodeField_processed in Hst as [_ Hin].
  by rewrite encodeLoop_filter_seen.
Qed.

Lemma encodeLoop_drop_seen mid g post st :
  zapcore.Key g ∈ processedFields st →
  encodeLoop (mid ++ g :: post) st = encodeLoop (mid ++ post) st.
Proof.
  revert st. induction mid as [|m mid IH]; intros st Hg; simpl.
  - by rewrite encodeField_seen.
  - destruct (encodeField st m) as [st'|] eqn:Hst; [|done].
    apply IH. apply encodeField_processed in Hst as [Hsub _]. set_solver.
Qed.

Lemma encodeLoop_drop_repeated pre f mid g post st :
  zapcore.Key g = zapcore.Key f →
  encodeLoop (pre ++ f :: mid ++ g :: post) st =
    encodeLoop (pre ++ f :: mid ++ post) st.
Proof.
  intros Hkey. revert st. induction pre as [|p pre IH]; intros st; simpl.
  - destruct (encodeField st f) as [st'|] eqn:Hst; [|done].
    apply encodeLoop_drop_seen. rewrite Hkey.
    by apply encodeField_processed in Hst as [_ ?].
  - destruct (encodeField st p) as [st'|]; [apply IH|done].
Qed.

End loop.

(** ** Header objects under [SanitizeHeaders] *)

Section headers.

Context (lower : string → string).

Implicit Types (h : header) (σ : gmap loc header) (w : world).

Lemma redactStep_lookup_other h key k :
  secret lower k = false → redactStep lower h key !! k = h !! k.
Proof.
  intros Hk. unfold redactStep. destruct (secret lower key) eqn:Hkey; [|done].
  apply lookup_insert_ne. congruence.
Qed.

Lemma foldl_redactStep_lookup keys h k :
  foldl (redactStep lower) h keys !! k =
    if decide (secret lower k = true ∧ k ∈ keys)
    then Some [ecs.secretPlaceholderValue] else h !! k.
Proof.
  revert h. induction keys as [|key keys IH]; intros h; simpl.
  - case_decide as H; [|done]. destruct H as [_ H]. by apply elem_of_nil in H.
  - rewrite IH. destruct (decide (secret lower k = true ∧ k ∈ keys)) as [[Hs Hin]|Hn].
    + rewrite decide_True; [done|]. split; [done|by right].
    + destruct (decide (key = k)) as [->|Hne].
      * unfold redactStep. destruct (secret lower k) eqn:Hs.
        -- rewrite lookup_insert_eq. rewrite decide_True; [done|].
           split; [done|by left].
        -- rewrite decide_False; [done|]. intros [? _]. done.
      * rewrite decide_False.
        -- unfold redactStep. destruct (secret lower key); [|done].
           by apply lookup_insert_ne.
        -- intros [Hs Hin]. apply Hn. split; [done|].
           apply elem_of_cons in Hin as [?|?]; [congruence|done].
Qed.

Lemma elem_of_keys h k : k ∈ (map_to_list h).*1 ↔ is_Some (h !! k).
Proof.
  rewrite list_elem_of_fmap. split.
  - intros ([k' v] & -> & Hin). apply elem_of_map_to_list in Hin. by eexists.
  - intros [v Hv]. exists (k, v). split; [done|]. by apply elem_of_map_to_list.
Qed.

Lemma redact_lookup h k :
  redact lower h !! k =
    (fun v => if secret lower k then [ecs.secretPlaceholderValue] else v) <$> h !! k.
Proof. unfold redact. rewrite map_lookup_imap. by destruct (h !! k). Qed.

(** Visiting every key of a header object redacts the object. *)
Lemma foldl_redactStep_redact h keys :
  keys ≡ₚ (map_to_list h).*1 → foldl (redactStep lower) h keys = redact lower h.
Proof.
  intros Hperm. apply map_eq. intros k.
  rewrite foldl_redactStep_lookup, redact_lookup.
  case_decide as Hk.
  - destruct Hk as [Hs Hin]. rewrite Hperm in Hin.
    apply elem_of_keys in Hin as [v ->]. simpl. by rewrite Hs.
  - destruct (h !! k) as [v|] eqn:Hv; [|done]. simpl.
    destruct (secret lower k) eqn:Hs; [|done].
    exfalso. apply Hk. split; [done|]. rewrite Hperm.
    apply elem_of_keys. by eexists.
Qed.

Lemma redact_idemp h : redact lower (redact lower h) = redact lower h.
Proof.
  apply map_eq. intros k. rewrite !redact_lookup.
  destruct (h !! k); [|done]. simpl. by destruct (secret lower k).
Qed.

Lemma keys_redact h : (map_to_list (redact lower h)).*1 ≡ₚ (map_to_list h).*1.
Proof.
  apply NoDup_Permutation; [apply NoDup_fst_map_to_list..|].
  intros k. rewrite !elem_of_keys, redact_lookup.
  by rewrite fmap_is_Some.
Qed.

Lemma plainEntry_redactStep h key k :
  plainEntry lower (redactStep lower h key) k = plainEntry lower h k.
Proof.
  unfold plainEntry, plainHeader. destruct (secret lower k) eqn:Hs; [done|].
  by rewrite redactStep_lookup_other.
Qed.

Lemma plainEntry_redact h k : plainEntry lower (redact lower h) k = plainEntry lower h k.
Proof.
  unfold plainEntry, plainHeader. rewrite redact_lookup.
  destruct (secret lower k) eqn:Hs; [done|]. by destruct (h !! k).
Qed.

Lemma plainEntry_keys h :
  plainHeadersIn lower h = plainEntry lower h <$> (map_to_list h).*1.
Proof.
  unfold plainHeadersIn. rewrite <- list_fmap_compose. apply list_fmap_ext.
  intros i [k v] Hi. simpl. unfold plainEntry.
  apply list_elem_of_lookup_2, elem_of_map_to_list in Hi. by rewrite Hi.
Qed.

(** The inner loop, on a header object that exists: it appends the text
    of each key visited and leaves the object redacted at those keys. *)
Lemma sanitizeKeys_run l keys plain w h :
  unicodeLower w = lower →
  heap w !! l = Some h →
  ecs.sanitizeKeys l keys plain w =
    Ok (plain ++ (plainEntry lower h <$> keys),
        mkWorld (<[l := foldl (redactStep lower) h keys]> (heap w))
          (rangeOrder w) (tick w) (unicodeLower w)).
Proof.
  revert plain w h.
  induction keys as [|key keys IH]; intros plain w h Hlow Hl; simpl.
  - unfold ret. rewrite app_nil_r, insert_id by done. by destruct w.
  - unfold bind at 1, toLower.
    assert (bool_decide
              (strings.ToLower (unicodeLower w) key ∈ ecs.secretEcsKeysMap) =
            secret lower key) as -> by (by rewrite Hlow).
    rewrite (list_fmap_ext (plainEntry lower h)
               (plainEntry lower (redactStep lower h key)))
      by (intros; symmetry; apply plainEntry_redactStep).
    unfold bind at 1. destruct (secret lower key) eqn:Hs.
    + assert (redactStep lower h key = <[key := [ecs.secretPlaceholderValue]]> h)
        as -> by (unfold redactStep; by rewrite Hs).
      assert (plainEntry lower h key =
              key +:+ "=" +:+ ecs.secretPlaceholderValue) as ->.
      { unfold plainEntry, plainHeader. by rewrite Hs. }
      unfold mapStore. rewrite Hl. unfold bind at 1, mapLoad. simpl.
      rewrite lookup_insert_eq. simpl. rewrite lookup_insert_eq. simpl.
      erewrite IH; [|done|simpl; apply lookup_insert_eq]. simpl.
      by rewrite insert_insert_eq, <- app_assoc.
    + assert (redactStep lower h key = h)
        as -> by (unfold redactStep; by rewrite Hs).
      assert (plainEntry lower h key =
              key +:+ "=" +:+ strings.Join (default [] (h !! key)) ",") as ->.
      { unfold plainEntry, plainHeader. by rewrite Hs. }
      unfold ret, bind at 1, mapLoad. rewrite Hl. simpl.
      erewrite IH by done. by rewrite <- app_assoc.
Qed.

Lemma plainHeadersIn_redact h : plainHeadersIn lower (redact lower h) ≡ₚ plainHeadersIn lower h.
Proof.
  rewrite !plainEntry_keys.
  rewrite (list_fmap_ext (plainEntry lower (redact lower h)) (plainEntry lower h))
    by (intros; apply plainEntry_redact).
  by rewrite keys_redact.
Qed.

(** One round of the outer loop: the object at [l] is ranged over and
    comes out redacted; a nil map is left alone. *)
Lemma sanitizeOne_run l plain w :
  range_visits_keys w →
  unicodeLower w = lower →
  ∃ out w1,
    bind (mapRange l) (fun keys => ecs.sanitizeKeys l keys plain) w =
      Ok (plain ++ out, w1) ∧
    rangeOrder w1 = rangeOrder w ∧
    unicodeLower w1 = unicodeLower w ∧
    out ≡ₚ plainHeadersIn lower (default ∅ (heap w !! l)) ∧
    ∀ x, heap w1 !! x =
           if decide (x = l) then redact lower <$> heap w !! x else heap w !! x.
Proof.
  intros Hsound Hlow. unfold bind, mapRange.
  pose proof (Hsound (tick w) (default ∅ (heap w !! l))) as Hkeys.
  destruct (heap w !! l) as [h|] eqn:Hl; simpl in *.
  - erewrite sanitizeKeys_run; [|exact Hlow|exact Hl]. simpl.
    rewrite (foldl_redactStep_redact _ _ Hkeys).
    eexists _, _. split; [done|]. split; [done|]. split; [done|]. split.
    + by rewrite plainEntry_keys, Hkeys.
    + intros x. simpl. case_decide as Hx.
      * subst x. by rewrite lookup_insert_eq, Hl.
      * by rewrite lookup_insert_ne.
  - rewrite map_to_list_empty in Hkeys. apply Permutation_nil_r in Hkeys.
    rewrite Hkeys. simpl. unfold ret.
    exists [], (mkWorld (heap w) (rangeOrder w) (S (tick w)) (unicodeLower w)).
    rewrite app_nil_r. split; [done|]. split; [done|]. split; [done|]. split.
    + unfold plainHeadersIn. by rewrite map_to_list_empty.
    + intros x. simpl. case_decide as Hx; [|done]. subst x. by rewrite Hl.
Qed.

(** The outer loop: every object of the list is redacted in the store,
    and the text of each of its headers is appended. [σ0] is the store the
    caller had: objects met a second time are redacted already. *)
Lemma sanitizeEach_run σ0 val plain w :
  range_visits_keys w →
  unicodeLower w = lower →
  (∀ l, heap w !! l = σ0 !! l ∨ heap w !! l = redact lower <$> σ0 !! l) →
  ∃ out w',
    ecs.sanitizeEach val plain w = Ok (plain ++ out, w') ∧
    rangeOrder w' = rangeOrder w ∧
    unicodeLower w' = unicodeLower w ∧
    out ≡ₚ plainHeadersOf lower σ0 val ∧
    ∀ x, heap w' !! x =
           if decide (x ∈ val) then redact lower <$> heap w !! x else heap w !! x.
Proof.
  revert plain w.
  induction val as [|l val IH]; intros plain w Hsound Hlow Hinv.
  - exists [], w. simpl. unfold ret. rewrite app_nil_r.
    split; [done|]. split; [done|]. split; [done|]. split; [done|].
    done.
  - destruct (sanitizeOne_run l plain w Hsound Hlow)
      as (out1 & w1 & Hrun1 & Hord1 & Hlow1 & Hout1 & Hheap1).
    assert (range_visits_keys w1) as Hsound1.
    { unfold range_visits_keys. rewrite Hord1. exact Hsound. }
    assert (∀ x, heap w1 !! x = σ0 !! x ∨ heap w1 !! x = redact lower <$> σ0 !! x)
      as Hinv1.
    { intros x. rewrite Hheap1. case_decide; [|apply Hinv].
      right. destruct (Hinv x) as [->| ->]; [done|].
      destruct (σ0 !! x); [|done]. simpl. by rewrite redact_idemp. }
    destruct (IH (plain ++ out1) w1 Hsound1 (eq_trans Hlow1 Hlow) Hinv1)
      as (out2 & w' & Hrun2 & Hord2 & Hlow2 & Hout2 & Hheap2).
    exists (out1 ++ out2), w'. split.
    { change (ecs.sanitizeEach (l :: val) plain w) with
        (bind (bind (mapRange l) (fun keys => ecs.sanitizeKeys l keys plain))
           (fun plain' => ecs.sanitizeEach val plain') w) in |- *.
      unfold bind at 1. rewrite Hrun1, Hrun2. by rewrite app_assoc. }
    split; [congruence|]. split; [congruence|]. split.
    { unfold plainHeadersOf. rewrite bind_cons. fold (plainHeadersOf lower σ0 val).
      rewrite Hout1, Hout2.
      destruct (Hinv l) as [->| ->]; [done|].
      destruct (σ0 !! l); simpl; [|done]. by rewrite plainHeadersIn_redact. }
    intros x. rewrite Hheap2, Hheap1.
    destruct (decide (x = l)) as [->|Hne].
    + rewrite (decide_True (P := l ∈ l :: val)) by (by left).
      case_decide; [|done].
      destruct (heap w !! l); [|done]. simpl. by rewrite redact_idemp.
    + destruct (decide (x ∈ val)) as [Hin|Hnin].
      * rewrite decide_True; [done|by right].
      * rewrite decide_False; [done|].
        intros Hin. apply elem_of_cons in Hin as [?|?]; done.
Qed.

End headers.

(** ** The HTTP object and the assembly of the output *)

Section assembly.

Lemma returns_ret {A} (P : A → Prop) a : P a → returns P (ret a).
Proof. intros HP w _. by exists a, w. Qed.

Lemma returns_bind {A B} (Q : A → Prop) (P : B → Prop) m k :
  returns Q m → (∀ a, Q a → returns P (k a)) → returns P (bind m k).
Proof.
  intros Hm Hk w Hsound.
  destruct (Hm w Hsound) as (a & w1 & Hrun1 & Hord1 & Hlow1 & Ha).
  destruct (Hk a Ha w1) as (b & w2 & Hrun2 & Hord2 & Hlow2 & Hb).
  { unfold range_visits_keys. rewrite Hord1. exact Hsound. }
  exists b, w2. unfold bind. rewrite Hrun1. split; [done|].
  split; [congruence|]. split; [congruence|done].
Qed.

Lemma returns_weaken {A} (P Q : A → Prop) m :
  (∀ a, P a → Q a) → returns P m → returns Q m.
Proof.
  intros HPQ Hm w Hsound.
  destruct (Hm w Hsound) as (a & w' & ? & ? & ? & ?).
  exists a, w'. auto.
Qed.

Lemma returns_SanitizeHeaders val :
  returns (fun _ => True) (ecs.SanitizeHeaders val).
Proof.
  intros w Hsound.
  destruct (sanitizeEach_run (unicodeLower w) (heap w) val [] w Hsound eq_refl)
    as (out & w' & Hrun & Hord & Hlow & _ & _); [by left|].
  by exists out, w'.
Qed.

Lemma returns_getValueAsString field :
  returns (fun _ => True) (objects.getValueAsString field).
Proof.
  unfold objects.getValueAsString.
  destruct (negb (String.eqb _ _)); [by apply returns_ret|].
  destruct (zapcore.Interface field); simpl; try by apply returns_ret.
  eapply returns_bind; [apply returns_SanitizeHeaders|].
  intros. by apply returns_ret.
Qed.

Lemma returns_HTTPECSMapper field object :
  returns (fun _ => True) (objects.HTTPECSMapper field object).
Proof.
  unfold objects.HTTPECSMapper.
  repeat (destruct (String.eqb _ _);
    [eapply returns_bind; [apply returns_getValueAsString|];
     intros; by apply returns_ret|]).
  by apply returns_ret.
Qed.

Lemma returns_mapFields fields target :
  returns (fun _ => True) (objects.mapFields fields target).
Proof.
  revert target. induction fields as [|f fields IH]; intros target; simpl.
  - by apply returns_ret.
  - eapply returns_bind; [apply returns_HTTPECSMapper|]. intros. apply IH.
Qed.

Lemma returns_AsField baseKey fields :
  returns (fun f => ∃ data, f = objects.RawMessageField baseKey data)
    (objects.AsField baseKey fields).
Proof.
  unfold objects.AsField, objects.MarshalJSON.
  eapply returns_bind.
  - eapply returns_bind; [apply returns_mapFields|].
    intros target _. apply (returns_ret (fun _ => True)). done.
  - intros marshaled _. apply returns_ret. by eexists.
Qed.

Lemma encodeField_level st f st' :
  encodeField st f = Ok st' → l (accums st') = l (accums st).
Proof.
  unfold encodeField. case_bool_decide; [by intros [= <-]|].
  destruct (ecs.IsECSFieldName _); [destruct (String.eqb _ _)|];
    [destruct (zapcore.Interface f)|..];
    intros [= <-]; simpl; auto using appendField_level.
Qed.

Lemma encodeLoop_level fields st st' :
  encodeLoop fields st = Ok st' → l (accums st') = l (accums st).
Proof.
  revert st. induction fields as [|f fields IH]; intros st; simpl.
  - by intros [= <-].
  - destruct (encodeField st f) as [st1|] eqn:Hst; [|done].
    intros Hloop. rewrite (IH _ Hloop). by apply encodeField_level in Hst.
Qed.

Lemma tagsField_length tags :
  (if (0 <? length tags)%nat
   then [objects.Plain (zap.Strings ecs.FieldTags tags)] else []) =
  tagsField tags.
Proof. by destruct tags. Qed.

(** [encodeFields] once its loop has returned: the tags, the base labels
    as they are, and the six bucket fields, the HTTP one holding the
    document [AsField] made of the HTTP bucket. *)
Lemma encodeFields_run lg fields lvl st w :
  range_visits_keys w →
  encodeLoop fields (initialLoop lg lvl) = Ok st →
  ∃ data w',
    objects.AsField ecs.HTTPBaseLevelKey (httpFieldsAccum (accums st)) w =
      Ok (objects.RawMessageField "http" data, w') ∧
    encodeFields lg fields lvl w =
      Ok (tagsField (entryTags st) ++ (objects.Plain <$> baseLabels lg) ++
          bucketFields lg (accums st) data, w').
Proof.
  intros Hsound Hloop.
  destruct (returns_AsField ecs.HTTPBaseLevelKey (httpFieldsAccum (accums st))
              w Hsound) as (http & w' & Hrun & _ & _ & data & ->).
  exists data, w'. split; [exact Hrun|].
  unfold encodeFields, emitLogFields, bind, liftResult, ret.
  fold (initialLoop lg lvl). rewrite Hloop. cbv beta iota.
  rewrite Hrun. cbv beta iota. rewrite tagsField_length.
  by rewrite <- app_assoc.
Qed.

End assembly.

(** ** Tags and the order of the output *)

Section tags.

Lemma encodeLoop_app pre post st :
  encodeLoop (pre ++ post) st =
    match encodeLoop pre st with
    | Ok st' => encodeLoop post st'
    | Panic msg => Panic msg
    end.
Proof.
  revert st. induction pre as [|f pre IH]; intros st; simpl; [done|].
  by destruct (encodeField st f).
Qed.

(** Fields that are not under the tag key leave the tags alone. *)
Lemma encodeLoop_no_tags fields st :
  (∀ g, g ∈ fields → zapcore.Key g ≠ ecs.FieldTags) →
  ecs.FieldTags ∉ processedFields st →
  ∃ st', encodeLoop fields st = Ok st' ∧
         entryTags st' = entryTags st ∧
         ecs.FieldTags ∉ processedFields st'.
Proof.
  revert st. induction fields as [|f fields IH]; intros st Hno Hfresh; simpl.
  - by exists st.
  - assert (zapcore.Key f ≠ ecs.FieldTags) as Hf by (apply Hno; by left).
    destruct (decide (zapcore.Key f ∈ processedFields st)) as [Hseen|Hnew].
    + rewrite encodeField_seen by done. apply IH; [|done].
      intros g Hg. apply Hno. by right.
    + rewrite encodeField_fresh by done.
      destruct (IH (mkLoop ({[zapcore.Key f]} ∪ processedFields st)
                      (appendField (accums st) f) (entryTags st)))
        as (st' & Hrun & Htags & Hfresh').
      * intros g Hg. apply Hno. by right.
      * simpl. rewrite elem_of_union, elem_of_singleton.
        intros [Heq|Hin]; [by apply Hf|by apply Hfresh].
      * by exists st'.
Qed.

(** Once the tag key was seen, nothing extends the tags, and nothing
    panics. *)
Lemma encodeLoop_tags_seen fields st :
  ecs.FieldTags ∈ processedFields st →
  ∃ st', encodeLoop fields st = Ok st' ∧ entryTags st' = entryTags st.
Proof.
  revert st. induction fields as [|f fields IH]; intros st Hseen; simpl.
  - by exists st.
  - destruct (decide (zapcore.Key f ∈ processedFields st)) as [Hf|Hf].
    + rewrite encodeField_seen by done. by apply IH.
    + rewrite encodeField_fresh; [|done|by intros Heq; rewrite Heq in Hf].
      destruct (IH (mkLoop ({[zapcore.Key f]} ∪ processedFields st)
                      (appendField (accums st) f) (entryTags st)))
        as (st' & Hrun & Htags); [simpl; set_solver|].
      by exists st'.
Qed.

Lemma encodeField_tags st f tags :
  zapcore.Key f = ecs.FieldTags →
  zapcore.Interface f = zapcore.StringSlice tags →
  ecs.FieldTags ∉ processedFields st →
  encodeField st f =
    Ok (mkLoop ({[ecs.FieldTags]} ∪ processedFields st) (accums st)
          (entryTags st ++ tags)).
Proof.
  intros Hkey Hval Hfresh. rewrite (encodeField_tag st f Hkey Hfresh).
  by rewrite Hval.
Qed.

End tags.

(** ** The loop of [encodeFields] in closed form *)

Section closed_form.

Lemma NoDup_keys_firstByKey fields :
  NoDup (zapcore.Key <$> firstByKey fields).
Proof.
  induction fields as [|f fields IH]; simpl; [constructor|].
  apply NoDup_cons. split.
  - intros Hin. apply list_elem_of_fmap in Hin as (g & Hkey & Hg).
    apply list_elem_of_filter in Hg as [Hne _]. by apply Hne.
  - eapply sublist_NoDup; [exact IH|].
    apply fmap_sublist, sublist_filter.
Qed.

Lemma encodeField_processed_upper st f st' :
  encodeField st f = Ok st' →
  processedFields st' ⊆ {[ zapcore.Key f ]} ∪ processedFields st.
Proof.
  unfold encodeField. case_bool_decide as Hseen.
  - intros [= <-]. apply union_subseteq_r.
  - destruct (ecs.IsECSFieldName _); [destruct (String.eqb _ _)|];
      [destruct (zapcore.Interface f)|..];
      intros [= <-]; simpl; done.
Qed.

(** A field under the tag key never reaches a bucket. *)
Lemma encodeField_tag_accums st f st' :
  zapcore.Key f = ecs.FieldTags →
  encodeField st f = Ok st' → accums st' = accums st.
Proof.
  intros Hkey.
  destruct (decide (ecs.FieldTags ∈ processedFields st)) as [Hseen|Hfresh].
  - rewrite encodeField_seen by (by rewrite Hkey). by intros [= <-].
  - rewrite (encodeField_tag st f Hkey Hfresh).
    destruct (zapcore.Interface f); intros Hrun;
      first [discriminate Hrun | by injection Hrun as <-].
Qed.

(** The buckets after the loop, over fields of distinct keys none of
    which was seen before. *)
Lemma encodeLoop_buckets b fields st0 st :
  NoDup (zapcore.Key <$> fields) →
  (∀ f, f ∈ fields → zapcore.Key f ∉ processedFields st0) →
  encodeLoop fields st0 = Ok st →
  bucketOf b (accums st) =
    bucketOf b (accums st0) ++
    (storedIn b <$>
       filter (fun f => zapcore.Key f ≠ ecs.FieldTags ∧ route (zapcore.Key f) = b)
         fields).
Proof.
  revert st0. induction fields as [|f fields IH]; intros st0 Hdup Hfresh; simpl.
  - intros [= <-]. by rewrite app_nil_r.
  - rewrite fmap_cons in Hdup. apply NoDup_cons in Hdup as [Hf Hdup].
    assert (zapcore.Key f ∉ processedFields st0) as Hnew
      by (apply Hfresh; by left).
    destruct (encodeField st0 f) as [st1|] eqn:Hst1; [|done].
    intros Hloop.
    assert (∀ g, g ∈ fields → zapcore.Key g ∉ processedFields st1) as Hfresh1.
    { intros g Hg Hin. apply encodeField_processed_upper in Hst1.
      apply Hst1 in Hin. apply elem_of_union in Hin as [Hin|Hin].
      - apply elem_of_singleton in Hin. apply Hf. rewrite <- Hin.
        by apply list_elem_of_fmap_2.
      - apply (Hfresh g); [by right|done]. }
    rewrite (IH st1 Hdup Hfresh1 Hloop). rewrite filter_cons.
    destruct (decide (zapcore.Key f = ecs.FieldTags)) as [Htag|Htag].
    + rewrite (encodeField_tag_accums _ _ _ Htag Hst1).
      rewrite (decide_False (P := _ ∧ _)); [done|]. intros [? _]. done.
    + rewrite encodeField_fresh in Hst1 by done. injection Hst1 as <-.
      simpl. rewrite appendField_bucketOf. unfold storedIn at 2.
      destruct (decide (b = route (zapcore.Key f))) as [->|Hb].
      * rewrite (decide_True (P := _ ∧ _)) by (split; done).
        rewrite fmap_cons, <- app_assoc. done.
      * rewrite (decide_False (P := _ ∧ _)); [done|].
        intros [_ ?]. by apply Hb.
Qed.

Lemma firstTag_cons f fields :
  firstTag (f :: fields) =
    if String.eqb (zapcore.Key f) ecs.FieldTags then Some f
    else firstTag fields.
Proof. done. Qed.

Lemma encodeField_not_tag st f :
  zapcore.Key f ≠ ecs.FieldTags →
  ecs.FieldTags ∉ processedFields st →
  ∃ st', encodeField st f = Ok st' ∧
         entryTags st' = entryTags st ∧
         ecs.FieldTags ∉ processedFields st'.
Proof.
  intros Hkey Hfresh.
  destruct (decide (zapcore.Key f ∈ processedFields st)) as [Hseen|Hnew].
  - exists st. by rewrite encodeField_seen.
  - eexists. rewrite encodeField_fresh by done. split; [done|].
    split; [done|]. simpl. rewrite elem_of_union, elem_of_singleton.
    intros [Heq|Hin]; [by apply Hkey|by apply Hfresh].
Qed.

(** The tags after the loop when the deciding tag field, if any, holds nil
    or a [[]string]: the tags before it, then the strings of that field. *)
Lemma encodeLoop_tags_ok fields st0 :
  (∀ f, firstTag fields = Some f → tagPayloadOk (zapcore.Interface f) = true) →
  ecs.FieldTags ∉ processedFields st0 →
  ∃ st, encodeLoop fields st0 = Ok st ∧
        entryTags st = entryTags st0 ++ callTags fields.
Proof.
  revert st0. induction fields as [|f fields IH]; intros st0 Hok Hfresh.
  - exists st0. split; [done|]. by rewrite app_nil_r.
  - unfold callTags. rewrite firstTag_cons in *. simpl.
    destruct (String.eqb_spec (zapcore.Key f) ecs.FieldTags) as [Hkey|Hkey].
    + specialize (Hok f eq_refl).
      assert (∃ tags, encodeField st0 f =
                Ok (mkLoop ({[ecs.FieldTags]} ∪ processedFields st0)
                      (accums st0) (entryTags st0 ++ tags)) ∧
              match zapcore.Interface f with
              | zapcore.StringSlice t => t
              | _ => []
              end = tags) as (tags & Hrun & Htags).
      { rewrite (encodeField_tag st0 f Hkey Hfresh).
        destruct (zapcore.Interface f); try discriminate Hok.
        - exists []. by rewrite app_nil_r.
        - by eexists. }
      rewrite Hrun, Htags.
      destruct (encodeLoop_tags_seen fields
                  (mkLoop ({[ecs.FieldTags]} ∪ processedFields st0)
                     (accums st0) (entryTags st0 ++ tags)))
        as (st & Hloop & Hst); [simpl; set_solver|].
      by exists st.
    + destruct (encodeField_not_tag st0 f Hkey Hfresh)
        as (st1 & Hrun & Htags & Hfresh1).
      rewrite Hrun. destruct (IH st1 Hok Hfresh1) as (st & Hloop & Hst).
      exists st. split; [done|]. rewrite Hst, Htags. done.
Qed.

(** The loop panics when the deciding tag field holds anything else. *)
Lemma encodeLoop_tags_bad fields st0 f :
  firstTag fields = Some f →
  tagPayloadOk (zapcore.Interface f) = false →
  ecs.FieldTags ∉ processedFields st0 →
  encodeLoop fields st0 =
    Panic "interface conversion: interface {} is not []string".
Proof.
  revert st0. induction fields as [|g fields IH]; intros st0 Hfirst Hbad Hfresh.
  - done.
  - rewrite firstTag_cons in Hfirst. simpl.
    destruct (String.eqb_spec (zapcore.Key g) ecs.FieldTags) as [Hkey|Hkey].
    + injection Hfirst as ->. rewrite (encodeField_tag st0 f Hkey Hfresh).
      destruct (zapcore.Interface f); first [discriminate Hbad | reflexivity].
    + destruct (encodeField_not_tag st0 g Hkey Hfresh)
        as (st1 & Hrun & _ & Hfresh1).
      rewrite Hrun. by apply IH.
Qed.

End closed_form.

Section output.

Lemma dotFree_reduceKey f : dotFree (zapcore.Key (reduceKey f)).
Proof.
  destruct (reduceKey_withKey f) as (k' & Hk' & ->). simpl.
  destruct Hk' as [[Hfree ->]|(p & _ & Hfree)]; done.
Qed.

Lemma reduceKey_dotFree f :
  dotFree (zapcore.Key f) → reduceKey f = f.
Proof.
  intros Hfree. unfold reduceKey. rewrite Split_dotFree by done.
  by destruct f.
Qed.

(** The buckets of a call, once the loop has returned. *)
Lemma encodeLoop_bucketOfCall lg lvl fields st b :
  encodeLoop fields (initialLoop lg lvl) = Ok st →
  bucketOf b (accums st) = bucketOfCall b fields.
Proof.
  intros Hloop. rewrite <- encodeLoop_firstByKey in Hloop.
  rewrite (encodeLoop_buckets b _ _ _ (NoDup_keys_firstByKey fields)
             (fun f _ => not_elem_of_empty (zapcore.Key f)) Hloop).
  unfold bucketOfCall, bucketSources. by destruct b.
Qed.

(** What [emitLogFields] returns when it returns. *)
Lemma emitLogFields_shape a base w out w' :
  emitLogFields a base w = Ok (out, w') →
  ∃ data,
    out =
      [ objects.ObjectField "log"
          (objects.AsObject
             (logFieldsAccum a ++
              [reduceKey base;
               reduceKey (zap.String ecs.FieldLogLevel (Level_String (l a)))]));
        objects.RawMessageField "http" data;
        objects.ObjectField "event" (objects.AsObject (eventFieldsAccum a));
        objects.ObjectField "error" (objects.AsObject (errorFieldsAccum a));
        objects.ObjectField "trace" (objects.AsObject (traceFieldsAccum a));
        objects.ObjectField "labels" (objects.AsObject (labelsFieldsAccum a)) ].
Proof.
  unfold emitLogFields, objects.AsField, bind, ret.
  destruct (objects.MarshalJSON _ w) as [[marshaled w1]|]; [|done].
  intros [= <- <-]. by eexists.
Qed.

End output.

(** ** The HTTP mapper, leaf by leaf *)

Section mapper.

Lemma HasPrefix_http_not_log key :
  strings.HasPrefix key ecs.HTTPPrefix = true →
  strings.HasPrefix key ecs.LogPrefix = false.
Proof.
  unfold strings.HasPrefix, ecs.HTTPPrefix, ecs.LogPrefix.
  destruct key as [|c key]; [done|]. intros Hhttp.
  destruct c as [[] [] [] [] [] [] [] []];
    try (vm_compute in Hhttp; discriminate Hhttp); reflexivity.
Qed.

Lemma route_http key :
  strings.HasPrefix key ecs.HTTPPrefix = true → route key = HTTPBucket.
Proof.
  intros Hhttp. pose proof (HasPrefix_http_not_log key Hhttp) as Hlog.
  unfold route, prefixTable. simpl.
  unfold ecs.HTTPPrefix, ecs.LogPrefix in *. by rewrite Hlog, Hhttp.
Qed.

(** A key the mapper does not know leaves the object as it is. *)
Lemma HTTPECSMapper_unrecognized f object :
  zapcore.Key f ∉ requestKeys ++ responseKeys →
  objects.HTTPECSMapper f object = ret object.
Proof.
  intros Hnot. unfold objects.HTTPECSMapper.
  repeat match goal with
  | |- context [String.eqb (zapcore.Key f) ?c] =>
      destruct (String.eqb_spec (zapcore.Key f) c) as [Heq|_];
      [exfalso; apply Hnot; rewrite Heq; apply list_elem_of_In; simpl; tauto|]
  end.
  done.
Qed.

Lemma mapFields_drop f pre post target w :
  (∀ object, objects.HTTPECSMapper f object = ret object) →
  objects.mapFields (pre ++ f :: post) target w =
    objects.mapFields (pre ++ post) target w.
Proof.
  intros Hf. revert target w.
  induction pre as [|p pre IH]; intros target w; simpl.
  - by rewrite Hf.
  - unfold bind.
    destruct (objects.HTTPECSMapper p target w) as [[target' w1]|]; [|done].
    apply IH.
Qed.

(** One step of the mapper on a key it knows, for whatever text
    [getValueAsString] gives: the leaf of the key gets the text, every
    other leaf keeps its text, nodes that were there stay, and the node
    the key writes under is there afterwards, with its body. *)
Lemma HTTPECSMapper_step f object w v w' :
  zapcore.Key f ∈ requestKeys ++ responseKeys →
  objects.getValueAsString f w = Ok (v, w') →
  ∃ object',
    objects.HTTPECSMapper f object w = Ok (object', w') ∧
    leafValue (zapcore.Key f) object' = v ∧
    (∀ k, k ≠ zapcore.Key f → leafValue k object' = leafValue k object) ∧
    (bodiesAllocated object → bodiesAllocated object') ∧
    (is_Some (objects.Request object') ↔
       is_Some (objects.Request object) ∨ zapcore.Key f ∈ requestKeys) ∧
    (is_Some (objects.Response object') ↔
       is_Some (objects.Response object) ∨ zapcore.Key f ∈ responseKeys).
Proof.
  intros Hkey Hget. unfold objects.HTTPECSMapper.
  apply list_elem_of_In in Hkey. simpl in Hkey.
  destruct object as [[[[[bc bh bs]|] rm rr]|] [[[[cc ch cs]|] sr]|]];
  repeat (destruct Hkey as [Hkey|Hkey]); try done;
    rewrite <- Hkey; simpl; unfold bind; rewrite Hget; unfold ret;
    (eexists; split; [reflexivity|]);
    (split; [reflexivity|]);
    (split;
      [intros k Hk; unfold leafValue;
       repeat match goal with
       | |- context [String.eqb k ?c] =>
           destruct (String.eqb_spec k c) as [->|?]; [try done|]
       end;
       done|]);
    (split;
      [intros [Hreq Hresp]; split; intros r [= <-]; simpl; eauto;
       try (by apply (Hreq _ eq_refl)); try (by apply (Hresp _ eq_refl))|]);
    (split; (split;
      [intros Hsome; first
         [ by left
         | right; apply list_elem_of_In; simpl; tauto
         | by destruct Hsome ]
      |intros [Hsome|Hin]; first
         [ exact Hsome
         | by destruct Hsome
         | by eexists
         | apply list_elem_of_In in Hin; simpl in Hin;
           repeat (destruct Hin as [Hin|Hin]); discriminate Hin || done ]])).
Qed.

(** The text of a field that carries no header list: its string when it
    has one, else what [%v] prints for its value; the store is left
    alone. *)
Lemma getValueAsString_plain f w :
  (∀ headers, zapcore.Interface f ≠ zapcore.HeaderSlice headers) →
  objects.getValueAsString f w =
    Ok (if String.eqb (zapcore.String f) EmptyString
        then Sprintf_v (zapcore.Interface f) else zapcore.String f, w).
Proof.
  intros Hplain. unfold objects.getValueAsString.
  destruct (String.eqb _ _); simpl; [|done].
  destruct (zapcore.Interface f) as [| | | |headers| |]; try done.
  by destruct (Hplain headers).
Qed.

(** The loop of [MarshalJSON], from any object whose nodes have their
    bodies. *)
Lemma mapFields_nodes fields object w :
  range_visits_keys w →
  bodiesAllocated object →
  ∃ target w',
    objects.mapFields fields object w = Ok (target, w') ∧
    bodiesAllocated target ∧
    (is_Some (objects.Request target) ↔
       is_Some (objects.Request object) ∨
       ∃ f, f ∈ fields ∧ zapcore.Key f ∈ requestKeys) ∧
    (is_Some (objects.Response target) ↔
       is_Some (objects.Response object) ∨
       ∃ f, f ∈ fields ∧ zapcore.Key f ∈ responseKeys).
Proof.
  revert object w.
  induction fields as [|f fields IH]; intros object w Hsound Halloc; simpl.
  - exists object, w. split; [done|]. split; [done|].
    split; (split; [by left|]);
      (intros [?|(f & Hf & _)]; [done|by apply elem_of_nil in Hf]).
  - assert (∃ object' w1,
              objects.HTTPECSMapper f object w = Ok (object', w1) ∧
              range_visits_keys w1 ∧ bodiesAllocated object' ∧
              (is_Some (objects.Request object') ↔
                 is_Some (objects.Request object) ∨
                 zapcore.Key f ∈ requestKeys) ∧
              (is_Some (objects.Response object') ↔
                 is_Some (objects.Response object) ∨
                 zapcore.Key f ∈ responseKeys))
      as (object' & w1 & Hstep & Hsound1 & Halloc1 & Hreq1 & Hresp1).
    { destruct (decide (zapcore.Key f ∈ requestKeys ++ responseKeys))
        as [Hkey|Hkey].
      - destruct (returns_getValueAsString f w Hsound)
          as (v & w1 & Hget & Hord & _).
        destruct (HTTPECSMapper_step f object w v w1 Hkey Hget)
          as (object' & Hrun & _ & _ & Halloc' & Hreq & Hresp).
        exists object', w1. split; [done|]. split.
        { unfold range_visits_keys. rewrite Hord. exact Hsound. }
        auto.
      - exists object, w. rewrite HTTPECSMapper_unrecognized by done.
        split; [done|]. split; [done|]. split; [done|].
        split; (split; [by left|]); (intros [?|Hin]; [done|]);
          exfalso; apply Hkey; apply elem_of_app; auto. }
    destruct (IH object' w1 Hsound1 Halloc1)
      as (target & w' & Hrun & Halloc' & Hreq & Hresp).
    exists target, w'. unfold bind. rewrite Hstep. split; [done|].
    split; [done|]. split.
    + rewrite Hreq, Hreq1. split.
      * intros [[?|?]|(g & Hg & ?)]; [by left| |].
        -- right. exists f. split; [by left|done].
        -- right. exists g. split; [by right|done].
      * intros [?|(g & Hg & ?)]; [by left; left|].
        apply elem_of_cons in Hg as [->|Hg]; [by left; right|].
        right. by exists g.
    + rewrite Hresp, Hresp1. split.
      * intros [[?|?]|(g & Hg & ?)]; [by left| |].
        -- right. exists f. split; [by left|done].
        -- right. exists g. split; [by right|done].
      * intros [?|(g & Hg & ?)]; [by left; left|].
        apply elem_of_cons in Hg as [->|Hg]; [by left; right|].
        right. by exists g.
Qed.

End mapper.

(** ** More on [SanitizeHeaders] *)

Section sanitize.

Context (lower : string → string).

Lemma plainHeadersOf_redacted (σ σ' : gmap loc header) val :
  (∀ l, σ' !! l = σ !! l ∨ σ' !! l = redact lower <$> σ !! l) →
  plainHeadersOf lower σ' val ≡ₚ plainHeadersOf lower σ val.
Proof.
  intros Hrel. unfold plainHeadersOf.
  induction val as [|l val IH]; [done|]. rewrite !bind_cons, IH.
  destruct (Hrel l) as [->| ->]; [done|].
  destruct (σ !! l); simpl; [|done]. by rewrite plainHeadersIn_redact.
Qed.

Lemma length_plainHeadersOf (σ : gmap loc header) val :
  length (plainHeadersOf lower σ val) =
    sum_list_with (fun l => size (default ∅ (σ !! l))) val.
Proof.
  unfold plainHeadersOf. induction val as [|l val IH]; [done|].
  rewrite bind_cons, List.length_app, IH. simpl.
  unfold plainHeadersIn. by rewrite length_fmap, length_map_to_list.
Qed.

Lemma dom_redact (h : header) : dom (redact lower h) = dom h.
Proof.
  apply set_eq. intros k.
  by rewrite !elem_of_dom, redact_lookup, fmap_is_Some.
Qed.

Lemma redact_no_secret (h : header) :
  (∀ key, is_Some (h !! key) → secret lower key = false) → redact lower h = h.
Proof.
  intros Hno. apply map_eq. intros k. rewrite redact_lookup.
  destruct (h !! k) as [v|] eqn:Hk; [|done]. simpl.
  by rewrite (Hno k) by (by rewrite Hk).
Qed.

End sanitize.

(** ** The output of a call in closed form *)

Section closed_output.

(** [encodeFields] in closed form, when the runtime is sound and the first
    field under the tag key, if there is one, holds nil or a [[]string]. *)
Lemma encodeFields_closed_form lg fields lvl w :
  range_visits_keys w →
  (∀ f, firstTag fields = Some f → tagPayloadOk (zapcore.Interface f) = true) →
  ∃ data w',
    objects.AsField ecs.HTTPBaseLevelKey (bucketOfCall HTTPBucket fields) w =
      Ok (objects.RawMessageField "http" data, w') ∧
    encodeFields lg fields lvl w =
      Ok (tagsField (baseTags lg ++ callTags fields) ++
          (objects.Plain <$> baseLabels lg) ++
          [ objects.ObjectField "log"
              (objects.AsObject
                 (bucketOfCall LogBucket fields ++
                  [reduceKey (baseLoggerField lg);
                   reduceKey (zap.String ecs.FieldLogLevel (Level_String lvl))]));
            objects.RawMessageField "http" data;
            objects.ObjectField "event"
              (objects.AsObject (bucketOfCall EventBucket fields));
            objects.ObjectField "error"
              (objects.AsObject (bucketOfCall ErrorBucket fields));
            objects.ObjectField "trace"
              (objects.AsObject (bucketOfCall TraceBucket fields));
            objects.ObjectField "labels"
              (objects.AsObject (bucketOfCall LabelsBucket fields)) ],
          w').
Proof.
  intros Hsound Hok.
  destruct (encodeLoop_tags_ok fields (initialLoop lg lvl) Hok)
    as (st & Hloop & Htags); [apply not_elem_of_empty|].
  destruct (encodeFields_run lg fields lvl st w Hsound Hloop)
    as (data & w' & Hhttp & Hrun).
  exists data, w'. split.
  - rewrite <- (encodeLoop_bucketOfCall lg lvl fields st HTTPBucket Hloop).
    exact Hhttp.
  - rewrite Hrun, Htags. unfold bucketFields.
    rewrite (encodeLoop_level _ _ _ Hloop).
    rewrite <- !(encodeLoop_bucketOfCall lg lvl fields st _ Hloop).
    reflexivity.
Qed.

(** The document of [AsField] is the one [json.Marshal] makes of the
    object the mapper has filled from the fields. *)
Lemma AsField_document baseKey fields w sf w' :
  objects.AsField baseKey fields w = Ok (sf, w') →
  ∃ target,
    objects.mapFields fields objects.zeroHTTP w = Ok (target, w') ∧
    sf = objects.RawMessageField baseKey (fst (objects.Marshal target)).
Proof.
  unfold objects.AsField, objects.MarshalJSON, bind, ret.
  destruct (objects.mapFields fields objects.zeroHTTP w) as [[target w1]|];
    [|done].
  intros [= <- <-]. by exists target.
Qed.

(** [encodeFields] once its loop has returned, with the HTTP document
    traced back to the HTTP bucket. *)
Lemma encodeFields_state lg fields lvl st w :
  range_visits_keys w →
  encodeLoop fields (initialLoop lg lvl) = Ok st →
  ∃ target w',
    objects.mapFields (httpFieldsAccum (accums st)) objects.zeroHTTP w =
      Ok (target, w') ∧
    encodeFields lg fields lvl w =
      Ok (tagsField (entryTags st) ++ (objects.Plain <$> baseLabels lg) ++
          bucketFields lg (accums st) (fst (objects.Marshal target)), w').
Proof.
  intros Hsound Hloop.
  destruct (encodeFields_run lg fields lvl st w Hsound Hloop)
    as (data & w' & Hhttp & Hrun).
  apply AsField_document in Hhttp as (target & Hmap & [= ->]).
  by exists target, w'.
Qed.

(** [encodeFields] over the call fields each bucket takes. *)
Lemma encodeFields_sources lg fields lvl w :
  range_visits_keys w →
  (∀ f, firstTag fields = Some f → tagPayloadOk (zapcore.Interface f) = true) →
  ∃ target w',
    objects.mapFields (bucketSources HTTPBucket fields) objects.zeroHTTP w =
      Ok (target, w') ∧
    encodeFields lg fields lvl w =
      Ok (tagsField (baseTags lg ++ callTags fields) ++
          (objects.Plain <$> baseLabels lg) ++
          [ objects.ObjectField "log"
              (objects.AsObject
                 ((reduceKey <$> bucketSources LogBucket fields) ++
                  [reduceKey (baseLoggerField lg);
                   reduceKey (zap.String ecs.FieldLogLevel (Level_String lvl))]));
            objects.RawMessageField "http" (fst (objects.Marshal target));
            objects.ObjectField "event"
              (objects.AsObject (reduceKey <$> bucketSources EventBucket fields));
            objects.ObjectField "error"
              (objects.AsObject (reduceKey <$> bucketSources ErrorBucket fields));
            objects.ObjectField "trace"
              (objects.AsObject (reduceKey <$> bucketSources TraceBucket fields));
            objects.ObjectField "labels"
              (objects.AsObject (reduceKey <$> bucketSources LabelsBucket fields)) ],
          w').
Proof.
  intros Hsound Hok.
  destruct (encodeLoop_tags_ok fields (initialLoop lg lvl) Hok)
    as (st & Hloop & Htags); [apply not_elem_of_empty|].
  destruct (encodeFields_state lg fields lvl st w Hsound Hloop)
    as (target & w' & Hmap & Hrun).
  exists target, w'. split.
  - pose proof (encodeLoop_bucketOfCall lg lvl fields st HTTPBucket Hloop)
      as Hhttp.
    assert (httpFieldsAccum (accums st) = bucketSources HTTPBucket fields)
      as <-; [|exact Hmap].
    rewrite <- (list_fmap_id (bucketSources HTTPBucket fields)). exact Hhttp.
  - rewrite Hrun, Htags. unfold bucketFields.
    rewrite (encodeLoop_level _ _ _ Hloop).
    pose proof (fun b => encodeLoop_bucketOfCall lg lvl fields st b Hloop)
      as Hb.
    pose proof (Hb LogBucket) as Hlog. pose proof (Hb EventBucket) as Hevent.
    pose proof (Hb ErrorBucket) as Herror. pose proof (Hb TraceBucket) as Htrace.
    pose proof (Hb LabelsBucket) as Hlabels.
    simpl in Hlog, Hevent, Herror, Htrace, Hlabels.
    rewrite Hlog, Hevent, Herror, Htrace, Hlabels.
    reflexivity.
Qed.

(** Of the first occurrences, the one under the key of [f] is [f] when no
    field before it has that key. *)
Lemma firstByKey_under_key pre f rest :
  (∀ p, p ∈ pre → zapcore.Key p ≠ zapcore.Key f) →
  filter (fun h => zapcore.Key h = zapcore.Key f) (firstByKey (pre ++ f :: rest))
    = [f].
Proof.
  induction pre as [|p pre IH]; intros Hpre; simpl.
  - rewrite filter_cons_True by done. f_equal.
    rewrite list_filter_filter.
    induction (firstByKey rest) as [|h hs IHhs]; [done|].
    rewrite filter_cons_False; [exact IHhs|]. intros [Heq Hne]. by apply Hne.
  - rewrite filter_cons_False by (apply Hpre; by left).
    rewrite list_filter_filter.
    rewrite (list_filter_iff _
               (fun h => zapcore.Key h ≠ zapcore.Key p ∧
                         zapcore.Key h = zapcore.Key f))
      by (intros h; tauto).
    rewrite <- list_filter_filter, IH by (intros q Hq; apply Hpre; by right).
    rewrite filter_cons_True; [done|].
    intros Heq. apply (Hpre p); [by left|done].
Qed.

(** The same inside the bucket: [f] is taken once by the bucket it is
    routed to, and no bucket takes another field under its key. *)
Lemma bucketSources_under_key b pre f rest :
  (∀ p, p ∈ pre → zapcore.Key p ≠ zapcore.Key f) →
  filter (fun h => zapcore.Key h = zapcore.Key f)
    (bucketSources b (pre ++ f :: rest)) =
  if decide (zapcore.Key f ≠ ecs.FieldTags ∧ route (zapcore.Key f) = b)
  then [f] else [].
Proof.
  intros Hpre. unfold bucketSources. rewrite list_filter_filter.
  rewrite (list_filter_iff _
             (fun h => (zapcore.Key h ≠ ecs.FieldTags ∧
                        route (zapcore.Key h) = b) ∧
                       zapcore.Key h = zapcore.Key f))
    by (intros h; tauto).
  rewrite <- list_filter_filter, (firstByKey_under_key pre f rest Hpre).
  rewrite filter_cons, filter_nil. reflexivity.
Qed.

(** The first field under the tag key, when no field before it has that
    key. *)
Lemma firstTag_app pre f rest :
  (∀ p, p ∈ pre → zapcore.Key p ≠ zapcore.Key f) →
  zapcore.Key f = ecs.FieldTags →
  firstTag (pre ++ f :: rest) = Some f.
Proof.
  intros Hpre Hkey. induction pre as [|p pre IH].
  - rewrite app_nil_l, firstTag_cons, Hkey. reflexivity.
  - rewrite <- app_comm_cons, firstTag_cons.
    destruct (String.eqb_spec (zapcore.Key p) ecs.FieldTags) as [Heq|_].
    + exfalso. apply (Hpre p); [by left|congruence].
    + apply IH. intros q Hq. apply Hpre. by right.
Qed.

End closed_output.

(** * The claims of the specification, settled on the code *)

(** C1, at the code: a call does not return when the first of its fields
    under the tag key holds a value that is neither nil nor a [[]string]:
    the unchecked type assertion panics, whatever the logger, the other
    fields and the state are, and nothing is handed to the sink. *)
Theorem tag_field_of_other_type_panics lg msg pre f post w :
  (∀ g, g ∈ pre → zapcore.Key g ≠ ecs.FieldTags) →
  zapcore.Key f = ecs.FieldTags →
  zapcore.Interface f ≠ zapcore.Nil →
  (∀ tags, zapcore.Interface f ≠ zapcore.StringSlice tags) →
  Info lg msg (pre ++ f :: post) w =
    Panic "interface conversion: interface {} is not []string".
Proof.
  intros Hpre Hkey Hnil Hslice.
  destruct (encodeLoop_no_tags pre (initialLoop lg InfoLevel) Hpre)
    as (st & Hrun & _ & Hfresh); [apply not_elem_of_empty|].
  unfold Info, encodeFields, bind, liftResult.
  fold (initialLoop lg InfoLevel). rewrite encodeLoop_app, Hrun.
  cbn [encodeLoop]. rewrite (encodeField_tag st f Hkey Hfresh).
  destruct (zapcore.Interface f) as [| |tags| | | |];
    [by destruct Hnil|reflexivity|by destruct (Hslice tags)|reflexivity..].
Qed.

Lemma tag_field_of_other_type_panics_witness :
  Info (mkLogger (zap.String ecs.FieldLogger "app") [] []) "started"
    [zap.String "foo" "v"; zap.Strings ecs.FieldTags ["a"]] (sortedRuntime ∅)
  = Panic "interface conversion: interface {} is not []string".
Proof.
  apply (tag_field_of_other_type_panics
           (mkLogger (zap.String ecs.FieldLogger "app") [] []) "started"
           [zap.String "foo" "v"] (zap.Strings ecs.FieldTags ["a"]) []).
  - intros g Hg. apply list_elem_of_singleton in Hg. subst g. discriminate.
  - reflexivity.
  - discriminate.
  - discriminate.
Defined.

(** C2, at the code: a base label under the key of a call field is kept. *)
Lemma base_label_not_deduplicated :
  ∃ out w',
    encodeFields
      (mkLogger (zap.String ecs.FieldLogger "app") []
         [zap.String ecs.FieldLabelApplication "base"])
      [zap.String ecs.FieldLabelApplication "call"] InfoLevel (sortedRuntime ∅)
    = Ok (out, w') ∧
    ¬ jointly_deduplicated
        (mkLogger (zap.String ecs.FieldLogger "app") []
           [zap.String ecs.FieldLabelApplication "base"])
        [zap.String ecs.FieldLabelApplication "call"] out.
Proof.
  eexists _, _. split; [vm_compute; reflexivity|].
  intros H.
  apply (H (zap.String ecs.FieldLabelApplication "base")).
  - simpl. by left.
  - simpl. by left.
  - simpl. by left.
Qed.

(** C2, amended: the call fields are deduplicated by key among themselves:
    a call gives what it gives on the first occurrence of each key, and when
    it returns, each bucket holds, in call order, the first occurrences that
    are routed to it, the tags are the base tags and the strings of the
    first tag field, and the HTTP document is made of the first occurrences
    under the HTTP prefix.  The base labels take no part in it: all of them
    are in the output as they are, between the tags and the bucket fields,
    whatever the keys of the call fields. *)
Theorem call_fields_deduplicated_base_labels_kept lg fields lvl :
  encodeFields lg fields lvl = encodeFields lg (firstByKey fields) lvl ∧
  ∀ w,
    range_visits_keys w →
    (∀ f, firstTag fields = Some f → tagPayloadOk (zapcore.Interface f) = true) →
    ∃ target w',
      objects.mapFields (bucketSources HTTPBucket fields) objects.zeroHTTP w =
        Ok (target, w') ∧
      encodeFields lg fields lvl w =
      Ok (tagsField (baseTags lg ++ callTags fields) ++
            (objects.Plain <$> baseLabels lg) ++
            [ objects.ObjectField "log"
                (objects.AsObject
                   ((reduceKey <$> bucketSources LogBucket fields) ++
                    [reduceKey (baseLoggerField lg);
                     reduceKey (zap.String ecs.FieldLogLevel (Level_String lvl))]));
              objects.RawMessageField "http" (fst (objects.Marshal target));
              objects.ObjectField "event"
                (objects.AsObject (reduceKey <$> bucketSources EventBucket fields));
              objects.ObjectField "error"
                (objects.AsObject (reduceKey <$> bucketSources ErrorBucket fields));
              objects.ObjectField "trace"
                (objects.AsObject (reduceKey <$> bucketSources TraceBucket fields));
              objects.ObjectField "labels"
                (objects.AsObject (reduceKey <$> bucketSources LabelsBucket fields)) ],
            w').
Proof.
  split.
  - unfold encodeFields. by rewrite encodeLoop_firstByKey.
  - intros w Hsound Hok. exact (encodeFields_sources lg fields lvl w Hsound Hok).
Qed.

Lemma call_fields_deduplicated_base_labels_kept_witness :
  ∃ w',
    encodeFields
      (mkLogger (zap.String ecs.FieldLogger "app") []
         [zap.String ecs.FieldLabelApplication "base"])
      [zap.String ecs.FieldLabelApplication "call"; zap.String "foo" "a";
       ecs.HTTPRequestMethod "GET"; zap.String "foo" "b";
       ecs.HTTPRequestMethod "PUT"]
      InfoLevel (sortedRuntime ∅) =
    Ok ([ objects.Plain (zap.String "application" "base");
          objects.ObjectField "log"
            (objects.AsObject
               [zap.String "logger" "app"; zap.String "level" "info"]);
          objects.RawMessageField "http"
            ("{" +:+ quoted "request" +:+ ":{" +:+ quoted "body" +:+ ":{}," +:+
             quoted "method" +:+ ":" +:+ quoted "GET" +:+ "}}");
          objects.ObjectField "event" (objects.AsObject []);
          objects.ObjectField "error" (objects.AsObject []);
          objects.ObjectField "trace" (objects.AsObject []);
          objects.ObjectField "labels"
            (objects.AsObject
               [zap.String "application" "call"; zap.String "foo" "a"]) ],
        w').
Proof.
  destruct (proj2 (call_fields_deduplicated_base_labels_kept
              (mkLogger (zap.String ecs.FieldLogger "app") []
                 [zap.String ecs.FieldLabelApplication "base"])
              [zap.String ecs.FieldLabelApplication "call"; zap.String "foo" "a";
               ecs.HTTPRequestMethod "GET"; zap.String "foo" "b";
               ecs.HTTPRequestMethod "PUT"]
              InfoLevel) (sortedRuntime ∅))
    as (target & w' & Hmap & Hrun).
  - intros n h. reflexivity.
  - intros f Hf. discriminate Hf.
  - vm_compute in Hmap. injection Hmap as <- <-.
    exists (sortedRuntime ∅). etrans; [exact Hrun|]. vm_compute. reflexivity.
Defined.

(** C3, at the code: the labels bucket is not the first of the six. *)
Lemma labels_bucket_not_first :
  ∃ out w',
    encodeFields (mkLogger (zap.String ecs.FieldLogger "app") [] []) []
      InfoLevel (sortedRuntime ∅) = Ok (out, w') ∧
    ¬ labels_bucket_first (mkLogger (zap.String ecs.FieldLogger "app") [] []) out.
Proof.
  eexists _, _. split; [vm_compute; reflexivity|].
  intros (tags & [-> | ->] & H); vm_compute in H; discriminate H.
Qed.

(** C3, amended: the list handed to the sink is, in this order: the merged
    tags as one field, present when there are tags; the base labels as they
    are; then six fields under the keys [log], [http], [event], [error],
    [trace] and [labels], the labels bucket last.  Each is an object over
    its bucket, except [http], which is the raw JSON document that
    [json.Marshal] makes of the object filled from the HTTP bucket.  The
    call returns with this list whenever the first field under the tag key
    holds nil or a [[]string]. *)
Theorem sink_fields_in_fixed_order lg fields lvl w :
  range_visits_keys w →
  (∀ f, firstTag fields = Some f → tagPayloadOk (zapcore.Interface f) = true) →
  ∃ st target w',
    encodeLoop fields (initialLoop lg lvl) = Ok st ∧
    objects.mapFields (httpFieldsAccum (accums st)) objects.zeroHTTP w =
      Ok (target, w') ∧
    encodeFields lg fields lvl w =
      Ok (tagsField (entryTags st) ++
          (objects.Plain <$> baseLabels lg) ++
          [ objects.ObjectField "log"
              (objects.AsObject
                 (logFieldsAccum (accums st) ++
                  [reduceKey (baseLoggerField lg);
                   reduceKey (zap.String ecs.FieldLogLevel (Level_String lvl))]));
            objects.RawMessageField "http" (fst (objects.Marshal target));
            objects.ObjectField "event" (objects.AsObject (eventFieldsAccum (accums st)));
            objects.ObjectField "error" (objects.AsObject (errorFieldsAccum (accums st)));
            objects.ObjectField "trace" (objects.AsObject (traceFieldsAccum (accums st)));
            objects.ObjectField "labels" (objects.AsObject (labelsFieldsAccum (accums st))) ],
          w').
Proof.
  intros Hsound Hok.
  destruct (encodeLoop_tags_ok fields (initialLoop lg lvl) Hok)
    as (st & Hloop & _); [apply not_elem_of_empty|].
  destruct (encodeFields_state lg fields lvl st w Hsound Hloop)
    as (target & w' & Hmap & Hrun).
  exists st, target, w'. split; [exact Hloop|]. split; [exact Hmap|].
  rewrite Hrun. unfold bucketFields. by rewrite (encodeLoop_level _ _ _ Hloop).
Qed.

Lemma sink_fields_in_fixed_order_witness :
  ∃ w',
    encodeFields
      (mkLogger (zap.String ecs.FieldLogger "app") ["prod"]
         [zap.String ecs.FieldLabelService "svc"])
      [zap.String "foo" "v"; ecs.Tags ["a"]; ecs.EventAction "start";
       zap.Strings ecs.FieldTags ["b"]; ecs.HTTPResponseStatusCode "404"]
      InfoLevel (sortedRuntime ∅) =
    Ok ([ objects.Plain (zap.Strings "tags" ["prod"; "a"]);
          objects.Plain (zap.String "service" "svc");
          objects.ObjectField "log"
            (objects.AsObject
               [zap.String "logger" "app"; zap.String "level" "info"]);
          objects.RawMessageField "http"
            ("{" +:+ quoted "response" +:+ ":{" +:+ quoted "body" +:+ ":{" +:+
             quoted "status_code" +:+ ":" +:+ quoted "404" +:+ "}}}");
          objects.ObjectField "event"
            (objects.AsObject [zap.String "action" "start"]);
          objects.ObjectField "error" (objects.AsObject []);
          objects.ObjectField "trace" (objects.AsObject []);
          objects.ObjectField "labels"
            (objects.AsObject [zap.String "foo" "v"]) ],
        w').
Proof.
  destruct (sink_fields_in_fixed_order
              (mkLogger (zap.String ecs.FieldLogger "app") ["prod"]
                 [zap.String ecs.FieldLabelService "svc"])
              [zap.String "foo" "v"; ecs.Tags ["a"]; ecs.EventAction "start";
               zap.Strings ecs.FieldTags ["b"]; ecs.HTTPResponseStatusCode "404"]
              InfoLevel (sortedRuntime ∅))
    as (st & target & w' & Hloop & Hmap & Hrun).
  - intros n h. reflexivity.
  - intros f [= <-]. reflexivity.
  - vm_compute in Hloop. injection Hloop as <-.
    vm_compute in Hmap. injection Hmap as <- <-.
    exists (sortedRuntime ∅). etrans; [exact Hrun|]. vm_compute. reflexivity.
Defined.

(** C4, at the code: the document of a bucket holding the request method
    only does have a [body] member. *)
Lemma method_only_document_has_body :
  ¬ ∃ w',
    objects.AsField ecs.HTTPBaseLevelKey [ecs.HTTPRequestMethod "POST"]
      (sortedRuntime ∅) =
    Ok (objects.RawMessageField "http" documentWithoutBody, w').
Proof. intros [w' H]. vm_compute in H. discriminate H. Qed.

(** C4, amended: for an HTTP bucket that holds only the field
    [http.request.method] with the string [POST], the document is
    [{"request":{"body":{},"method":"POST"}}]: no [response] member, and
    under [request] a [body] member that is the empty object, because the
    guard allocates the body together with the request. *)
Theorem method_only_document f w :
  zapcore.Key f = ecs.FieldHTTPRequestMethod →
  zapcore.String f = "POST" →
  objects.AsField ecs.HTTPBaseLevelKey [f] w =
    Ok (objects.RawMessageField "http"
          ("{" +:+ quoted "request" +:+ ":{" +:+ quoted "body" +:+ ":{}," +:+
           quoted "method" +:+ ":" +:+ quoted "POST" +:+ "}}"),
        w).
Proof.
  intros Hkey Hstr.
  unfold objects.AsField, objects.MarshalJSON, objects.mapFields,
    objects.HTTPECSMapper, objects.getValueAsString.
  rewrite Hkey, Hstr. reflexivity.
Qed.

Lemma method_only_document_witness :
  objects.AsField ecs.HTTPBaseLevelKey [ecs.HTTPRequestMethod "POST"]
    (sortedRuntime ∅) =
  Ok (objects.RawMessageField "http"
        ("{" +:+ quoted "request" +:+ ":{" +:+ quoted "body" +:+ ":{}," +:+
         quoted "method" +:+ ":" +:+ quoted "POST" +:+ "}}"),
      sortedRuntime ∅).
Proof. apply method_only_document; reflexivity. Defined.

(** C5, at the code: the field under [custom.x] is not stored in the
    labels under that key. *)
Lemma custom_x_not_labelled_under_full_key :
  ¬ labelled_under_full_key (newFieldAccumulators 0 InfoLevel)
      (zap.String "custom.x" "v").
Proof. unfold labelled_under_full_key. vm_compute. discriminate. Qed.

(** C5, amended: a field whose key has none of the five recognized
    prefixes is put into the labels bucket, and into no other, under the
    substring of its key after the final dot: [custom.x] is stored as [x];
    a key without a dot is kept whole. *)
Theorem unrecognized_prefix_labelled_under_reduced_key a f :
  Forall (fun p => strings.HasPrefix (zapcore.Key f) p = false)
    [ecs.LogPrefix; ecs.HTTPPrefix; ecs.EventPrefix; ecs.ErrorPrefix;
     ecs.TracePrefix] →
  ∃ k', afterFinalDot (zapcore.Key f) k' ∧
        (zapcore.Key f = "custom.x" → k' = "x") ∧
        labelsFieldsAccum (appendField a f) = labelsFieldsAccum a ++ [withKey k' f] ∧
        ∀ b, b ≠ LabelsBucket → bucketOf b (appendField a f) = bucketOf b a.
Proof.
  intros Hnone. apply route_labels in Hnone.
  destruct (reduceKey_withKey f) as (k' & Hk' & Hred).
  exists k'. split; [done|]. split; [|split].
  - intros Hkey. assert (zapcore.Key (reduceKey f) = "x") as Hx.
    { unfold reduceKey. rewrite Hkey. reflexivity. }
    rewrite Hred in Hx. exact Hx.
  - pose proof (appendField_bucketOf a f LabelsBucket) as Hb.
    rewrite Hnone in Hb. simpl in Hb. by rewrite Hb, Hred.
  - intros b Hb. rewrite appendField_bucketOf, Hnone.
    by destruct b.
Qed.

Lemma unrecognized_prefix_labelled_under_reduced_key_witness :
  labelsFieldsAccum
    (appendField (newFieldAccumulators 0 InfoLevel) (zap.String "custom.x" "v"))
  = [zap.String "x" "v"].
Proof.
  destruct (unrecognized_prefix_labelled_under_reduced_key
              (newFieldAccumulators 0 InfoLevel) (zap.String "custom.x" "v"))
    as (k' & _ & Hx & Hlab & _).
  - repeat constructor.
  - rewrite Hlab, (Hx eq_refl). reflexivity.
Defined.

(** C6: a surviving field that is not the tag field is tested against the
    prefixes [log.], [http.], [event.], [error.], [trace.] in this order
    ([route] takes the first match of the table); it is appended to the
    bucket of the first match and to no other, under the substring of its
    key after the final dot, except in the HTTP bucket, which gets the field
    under its full key. *)
Theorem surviving_field_routed_by_first_prefix st field :
  zapcore.Key field ∉ processedFields st →
  zapcore.Key field ≠ ecs.FieldTags →
  ∃ st' stored,
    encodeField st field = Ok st' ∧
    entryTags st' = entryTags st ∧
    (if decide (route (zapcore.Key field) = HTTPBucket)
     then stored = field
     else ∃ k', afterFinalDot (zapcore.Key field) k' ∧ stored = withKey k' field) ∧
    ∀ b, bucketOf b (accums st') =
           if decide (b = route (zapcore.Key field))
           then bucketOf b (accums st) ++ [stored]
           else bucketOf b (accums st).
Proof.
  intros Hnew Htag.
  destruct (reduceKey_withKey field) as (k' & Hk' & Hred).
  eexists _, (if decide (route (zapcore.Key field) = HTTPBucket)
              then field else reduceKey field).
  split; [by apply encodeField_fresh|]. split; [done|]. split.
  - case_decide; [done|]. by exists k'.
  - intros b. simpl. rewrite appendField_bucketOf.
    destruct (decide (b = route (zapcore.Key field))) as [->|]; [|done].
    done.
Qed.

Lemma surviving_field_routed_by_first_prefix_witness :
  ∃ st' stored,
    encodeField (mkLoop ∅ (newFieldAccumulators 0 InfoLevel) [])
      (zap.String "event.action" "start") = Ok st' ∧
    entryTags st' = [] ∧
    (∃ k', afterFinalDot "event.action" k' ∧
           stored = withKey k' (zap.String "event.action" "start")) ∧
    ∀ b, bucketOf b (accums st') =
           if decide (b = EventBucket) then [stored] else [].
Proof.
  destruct (surviving_field_routed_by_first_prefix
              (mkLoop ∅ (newFieldAccumulators 0 InfoLevel) [])
              (zap.String "event.action" "start"))
    as (st' & stored & H1 & H2 & H3 & H4).
  - simpl. apply not_elem_of_empty.
  - simpl. discriminate.
  - exists st', stored. split; [exact H1|]. split; [exact H2|].
    split; [exact H3|]. intros b. rewrite (H4 b). by destruct b.
Defined.

(** C7: of two call fields under one key the later one has no effect: the
    call gives what it gives without it, and a field logged twice is a
    field logged once.  The first occurrence is the one that counts: among
    the call fields the buckets take, the only one under that key is the
    first occurrence, once, in the bucket it is routed to, or, under the
    tag key, in no bucket, its strings being the tags of the call; and the
    output of the call is made of the fields the buckets take. *)
Theorem repeated_key_first_occurrence_wins lg lvl pre f mid g post :
  zapcore.Key g = zapcore.Key f →
  (encodeFields lg (pre ++ f :: mid ++ g :: post) lvl =
     encodeFields lg (pre ++ f :: mid ++ post) lvl ∧
   encodeFields lg [f; f] lvl = encodeFields lg [f] lvl) ∧
  ((∀ p, p ∈ pre → zapcore.Key p ≠ zapcore.Key f) →
   (∀ b, filter (fun h => zapcore.Key h = zapcore.Key f)
           (bucketSources b (pre ++ f :: mid ++ g :: post)) =
         if decide (zapcore.Key f ≠ ecs.FieldTags ∧ route (zapcore.Key f) = b)
         then [f] else []) ∧
   (zapcore.Key f = ecs.FieldTags →
      callTags (pre ++ f :: mid ++ g :: post) = tagPayload f)) ∧
  ∀ w,
    range_visits_keys w →
    (∀ t, firstTag (pre ++ f :: mid ++ g :: post) = Some t →
       tagPayloadOk (zapcore.Interface t) = true) →
    ∃ target w',
      objects.mapFields
        (bucketSources HTTPBucket (pre ++ f :: mid ++ g :: post))
        objects.zeroHTTP w = Ok (target, w') ∧
      encodeFields lg (pre ++ f :: mid ++ g :: post) lvl w =
      Ok (tagsField (baseTags lg ++ callTags (pre ++ f :: mid ++ g :: post)) ++
            (objects.Plain <$> baseLabels lg) ++
            [ objects.ObjectField "log"
                (objects.AsObject
                   ((reduceKey <$> bucketSources LogBucket (pre ++ f :: mid ++ g :: post)) ++
                    [reduceKey (baseLoggerField lg);
                     reduceKey (zap.String ecs.FieldLogLevel (Level_String lvl))]));
              objects.RawMessageField "http" (fst (objects.Marshal target));
              objects.ObjectField "event"
                (objects.AsObject (reduceKey <$> bucketSources EventBucket (pre ++ f :: mid ++ g :: post)));
              objects.ObjectField "error"
                (objects.AsObject (reduceKey <$> bucketSources ErrorBucket (pre ++ f :: mid ++ g :: post)));
              objects.ObjectField "trace"
                (objects.AsObject (reduceKey <$> bucketSources TraceBucket (pre ++ f :: mid ++ g :: post)));
              objects.ObjectField "labels"
                (objects.AsObject (reduceKey <$> bucketSources LabelsBucket (pre ++ f :: mid ++ g :: post))) ],
            w').
Proof.
  intros Hkey. split; [|split].
  - unfold encodeFields. split.
    + by rewrite encodeLoop_drop_repeated.
    + by rewrite (encodeLoop_drop_repeated [] f [] f []).
  - intros Hpre. split.
    + intros b. by apply bucketSources_under_key.
    + intros Htag. unfold callTags.
      by rewrite (firstTag_app pre f (mid ++ g :: post) Hpre Htag).
  - intros w Hsound Hok. exact (encodeFields_sources lg _ lvl w Hsound Hok).
Qed.

Lemma repeated_key_first_occurrence_wins_witness :
  (∀ b, filter (fun h => zapcore.Key h = "foo")
          (bucketSources b
             [ecs.TraceID "t"; zap.String "foo" "a"; ecs.EventAction "start";
              zap.String "foo" "b"]) =
        if decide (b = LabelsBucket) then [zap.String "foo" "a"] else []) ∧
  ∃ w',
    encodeFields (mkLogger (zap.String ecs.FieldLogger "app") [] [])
      [ecs.TraceID "t"; zap.String "foo" "a"; ecs.EventAction "start";
       zap.String "foo" "b"]
      InfoLevel (sortedRuntime ∅) =
    Ok ([ objects.ObjectField "log"
            (objects.AsObject
               [zap.String "logger" "app"; zap.String "level" "info"]);
          objects.RawMessageField "http" "{}";
          objects.ObjectField "event"
            (objects.AsObject [zap.String "action" "start"]);
          objects.ObjectField "error" (objects.AsObject []);
          objects.ObjectField "trace" (objects.AsObject [zap.String "id" "t"]);
          objects.ObjectField "labels"
            (objects.AsObject [zap.String "foo" "a"]) ],
        w').
Proof.
  destruct (repeated_key_first_occurrence_wins
              (mkLogger (zap.String ecs.FieldLogger "app") [] []) InfoLevel
              [ecs.TraceID "t"] (zap.String "foo" "a") [ecs.EventAction "start"]
              (zap.String "foo" "b") [] eq_refl)
    as (_ & Hfirst & Hout).
  destruct Hfirst as [Honce _].
  { intros p Hp. apply list_elem_of_singleton in Hp. subst p. discriminate. }
  destruct (Hout (sortedRuntime ∅)) as (target & w' & Hmap & Hrun).
  { intros n h. reflexivity. }
  { intros t Ht. discriminate Ht. }
  split.
  - intros b. etrans; [exact (Honce b)|]. destruct b; vm_compute; reflexivity.
  - vm_compute in Hmap. injection Hmap as <- <-.
    exists (sortedRuntime ∅). etrans; [exact Hrun|]. vm_compute. reflexivity.
Defined.

(** C8: the tags of the output are the base tags in their order, then the
    strings of the call's tag field in theirs; nothing is removed from the
    merged list, equal strings included, and later tag fields are
    duplicates by key. *)
Theorem tags_are_base_tags_then_field_tags lg lvl w pre f tags post :
  range_visits_keys w →
  (∀ g, g ∈ pre → zapcore.Key g ≠ ecs.FieldTags) →
  zapcore.Key f = ecs.FieldTags →
  zapcore.Interface f = zapcore.StringSlice tags →
  baseTags lg ++ tags ≠ [] →
  ∃ rest w',
    encodeFields lg (pre ++ f :: post) lvl w =
      Ok (objects.Plain (zap.Strings ecs.FieldTags (baseTags lg ++ tags))
            :: (objects.Plain <$> baseLabels lg) ++ rest,
          w').
Proof.
  intros Hsound Hpre Hkey Hval Hne.
  destruct (encodeLoop_no_tags pre (initialLoop lg lvl) Hpre)
    as (st1 & Hrun1 & Htags1 & Hfresh1); [apply not_elem_of_empty|].
  destruct (encodeLoop_tags_seen post
              (mkLoop ({[ecs.FieldTags]} ∪ processedFields st1) (accums st1)
                 (entryTags st1 ++ tags)))
    as (st2 & Hrun2 & Htags2); [simpl; set_solver|].
  assert (encodeLoop (pre ++ f :: post) (initialLoop lg lvl) = Ok st2) as Hloop.
  { rewrite encodeLoop_app, Hrun1. simpl.
    by rewrite (encodeField_tags st1 f tags). }
  destruct (encodeFields_run lg _ lvl st2 w Hsound Hloop)
    as (data & w' & _ & Hrun).
  exists (bucketFields lg (accums st2) data), w'.
  rewrite Hrun, Htags2. simpl. rewrite Htags1. simpl.
  by destruct (baseTags lg ++ tags).
Qed.

Lemma tags_are_base_tags_then_field_tags_witness :
  ∃ rest w',
    encodeFields (mkLogger (zap.String ecs.FieldLogger "app") ["prod"] [])
      [zap.String "foo" "v"; ecs.Tags ["a"; "b"]; ecs.Tags ["c"]] InfoLevel
      (sortedRuntime ∅) =
    Ok (objects.Plain (zap.Strings ecs.FieldTags ["prod"; "a"; "b"]) :: rest, w').
Proof.
  destruct (tags_are_base_tags_then_field_tags
              (mkLogger (zap.String ecs.FieldLogger "app") ["prod"] [])
              InfoLevel (sortedRuntime ∅)
              [zap.String "foo" "v"] (ecs.Tags ["a"; "b"]) ["a"; "b"]
              [ecs.Tags ["c"]])
    as (rest & w' & Hrun).
  - intros n h. reflexivity.
  - intros g Hg. apply list_elem_of_singleton in Hg. subst g. discriminate.
  - reflexivity.
  - reflexivity.
  - discriminate.
  - exists rest, w'. exact Hrun.
Defined.

(** C9: [SanitizeHeaders] returns one text per header of the objects it is
    given: [name=SECRET] when the lower-cased name is one of the secret
    names, so for [Authorization] in any case, and otherwise the name, [=]
    and the values as they are, joined by commas, so for [X-Trace].  The
    order within one object is the one the runtime ranged in. *)
Theorem SanitizeHeaders_hides_secret_values val w :
  range_visits_keys w →
  ∃ plain w',
    ecs.SanitizeHeaders val w = Ok (plain, w') ∧
    plain ≡ₚ
      val ≫= fun l =>
        (fun kv =>
           if bool_decide
                (strings.ToLower (unicodeLower w) (fst kv) ∈ ecs.secretEcsKeysMap)
           then fst kv +:+ "=SECRET"
           else fst kv +:+ "=" +:+ strings.Join (snd kv) ",")
        <$> map_to_list (default ∅ (heap w !! l)).
Proof.
  intros Hsound.
  destruct (sanitizeEach_run (unicodeLower w) (heap w) val [] w Hsound eq_refl)
    as (out & w' & Hrun & _ & _ & Hout & _); [by left|].
  exists out, w'. split; [exact Hrun|exact Hout].
Qed.

Lemma SanitizeHeaders_hides_secret_values_witness :
  ∃ plain w',
    ecs.SanitizeHeaders [1%positive]
      (sortedRuntime
         {[ 1%positive :=
              <["AUTHORIZATION" := ["secret123"]]>
                (<["X-Trace" := ["abc"; "def"]]> ∅) ]}) = Ok (plain, w') ∧
    plain ≡ₚ ["AUTHORIZATION=SECRET"; "X-Trace=abc,def"].
Proof.
  destruct (SanitizeHeaders_hides_secret_values [1%positive]
    (sortedRuntime
       {[ 1%positive :=
            <["AUTHORIZATION" := ["secret123"]]>
              (<["X-Trace" := ["abc"; "def"]]> ∅) ]}))
    as (plain & w' & Hrun & Hplain).
  - intros n h. reflexivity.
  - exists plain, w'. split; [exact Hrun|]. rewrite Hplain.
    vm_compute. reflexivity.
Defined.

(** C10: [SanitizeHeaders], and [HTTPRequestBodyHeaders] through it, write
    into the header objects of the caller: after the call every object of
    the argument holds the placeholder list under each secret name and what
    it held under every other name; objects outside the argument are as
    they were. *)
Theorem SanitizeHeaders_rewrites_the_callers_headers val w :
  range_visits_keys w →
  ∃ plain w',
    ecs.SanitizeHeaders val w = Ok (plain, w') ∧
    ecs.HTTPRequestBodyHeaders val w =
      Ok (zap.Strings ecs.FieldHTTPRequestBodyHeaders plain, w') ∧
    (∀ l, l ∉ val → heap w' !! l = heap w !! l) ∧
    (∀ l, heap w !! l = None → heap w' !! l = None) ∧
    (∀ l h, l ∈ val → heap w !! l = Some h →
       ∃ h', heap w' !! l = Some h' ∧
         ∀ key, h' !! key =
           if bool_decide
                (strings.ToLower (unicodeLower w) key ∈ ecs.secretEcsKeysMap)
           then (fun _ => [ecs.secretPlaceholderValue]) <$> h !! key
           else h !! key).
Proof.
  intros Hsound.
  destruct (sanitizeEach_run (unicodeLower w) (heap w) val [] w Hsound eq_refl)
    as (out & w' & Hrun & _ & _ & _ & Hheap); [by left|].
  exists out, w'. split; [exact Hrun|]. split; [|split; [|split]].
  - unfold ecs.HTTPRequestBodyHeaders, bind, ret.
    unfold ecs.SanitizeHeaders. by rewrite Hrun.
  - intros l Hl. rewrite Hheap. by rewrite decide_False.
  - intros l Hl. rewrite Hheap, Hl. by case_decide.
  - intros l h Hin Hl. exists (redact (unicodeLower w) h). split.
    + rewrite Hheap, decide_True, Hl by done. done.
    + intros key. rewrite redact_lookup. fold (secret (unicodeLower w) key).
      destruct (h !! key); simpl; by destruct (secret (unicodeLower w) key).
Qed.

Lemma SanitizeHeaders_rewrites_the_callers_headers_witness :
  ∃ plain w' h',
    ecs.SanitizeHeaders [1%positive]
      (sortedRuntime
         {[ 1%positive :=
              <["Cookie" := ["session=1"]]> (<["Accept" := ["*/*"]]> ∅) ]})
      = Ok (plain, w') ∧
    heap w' !! 1%positive = Some h' ∧
    h' !! "Cookie" = Some ["SECRET"] ∧
    h' !! "Accept" = Some ["*/*"].
Proof.
  destruct (SanitizeHeaders_rewrites_the_callers_headers [1%positive]
    (sortedRuntime
       {[ 1%positive :=
            <["Cookie" := ["session=1"]]> (<["Accept" := ["*/*"]]> ∅) ]}))
    as (plain & w' & Hrun & _ & _ & _ & Hin).
  - intros n h. reflexivity.
  - destruct (Hin 1%positive
      (<["Cookie" := ["session=1"]]> (<["Accept" := ["*/*"]]> ∅)))
      as (h' & Hh' & Hkeys).
    + by left.
    + reflexivity.
    + exists plain, w', h'. split; [exact Hrun|]. split; [exact Hh'|].
      rewrite !Hkeys. split; reflexivity.
Defined.

(** * Further properties of the code *)

(** X1: [encodeFields] panics exactly when the first call field under the
    tag key holds a value that is neither nil nor a [[]string]; tag fields
    after the first one cannot make it panic, nor can any other field. *)
Theorem encodeFields_panics_iff_first_tag_ill_typed lg fields lvl w :
  range_visits_keys w →
  (∃ msg, encodeFields lg fields lvl w = Panic msg) ↔
  (∃ f, firstTag fields = Some f ∧
        tagPayloadOk (zapcore.Interface f) = false).
Proof.
  intros Hsound. split.
  - intros [msg Hpanic].
    destruct (firstTag fields) as [f|] eqn:Hfirst.
    + destruct (tagPayloadOk (zapcore.Interface f)) eqn:Hpay; [|by exists f].
      destruct (encodeFields_closed_form lg fields lvl w Hsound)
        as (data & w' & _ & Hrun).
      { intros g Hg. rewrite Hfirst in Hg. by injection Hg as <-. }
      rewrite Hrun in Hpanic. discriminate Hpanic.
    + destruct (encodeFields_closed_form lg fields lvl w Hsound)
        as (data & w' & _ & Hrun).
      { intros g Hg. rewrite Hfirst in Hg. discriminate Hg. }
      rewrite Hrun in Hpanic. discriminate Hpanic.
  - intros (f & Hfirst & Hbad). eexists.
    unfold encodeFields, bind, liftResult. fold (initialLoop lg lvl).
    rewrite (encodeLoop_tags_bad fields (initialLoop lg lvl) f Hfirst Hbad)
      by apply not_elem_of_empty.
    reflexivity.
Qed.

Lemma encodeFields_panics_iff_first_tag_ill_typed_witness :
  ¬ ∃ msg,
      encodeFields (mkLogger (zap.String ecs.FieldLogger "app") [] [])
        [ecs.Tags ["a"]; zap.Strings "tags" ["b"]] InfoLevel (sortedRuntime ∅)
      = Panic msg.
Proof.
  intros Hpanic.
  apply (encodeFields_panics_iff_first_tag_ill_typed
           (mkLogger (zap.String ecs.FieldLogger "app") [] [])
           [ecs.Tags ["a"]; zap.Strings "tags" ["b"]] InfoLevel
           (sortedRuntime ∅)) in Hpanic.
  - destruct Hpanic as (f & [= <-] & Hbad). discriminate Hbad.
  - intros n h. reflexivity.
Defined.

(** X2: inside the nested objects of the output no key holds a dot: every
    field of the [log], [event], [error], [trace] and [labels] objects is
    stored under a key reduced to its last segment, the two fields the
    logger adds included. *)
Theorem nested_object_keys_hold_no_dot lg fields lvl w out w' key o g :
  encodeFields lg fields lvl w = Ok (out, w') →
  objects.ObjectField key o ∈ out →
  g ∈ objects.fields o →
  dotFree (zapcore.Key g).
Proof.
  unfold encodeFields, bind, liftResult, ret. fold (initialLoop lg lvl).
  destruct (encodeLoop fields (initialLoop lg lvl)) as [st|] eqn:Hloop; [|done].
  destruct (emitLogFields _ _ w) as [[emitted w1]|] eqn:Hemit; [|done].
  intros [= <- <-] Hin Hg.
  apply emitLogFields_shape in Hemit as [data ->].
  assert (∀ b f, f ∈ bucketOf b (accums st) → b ≠ HTTPBucket →
            dotFree (zapcore.Key f)) as Hbucket.
  { intros b f Hf Hb.
    rewrite (encodeLoop_bucketOfCall lg lvl fields st b Hloop) in Hf.
    unfold bucketOfCall, bucketSources in Hf.
    apply list_elem_of_fmap in Hf as (f0 & -> & _).
    unfold storedIn. rewrite decide_False by done. apply dotFree_reduceKey. }
  apply elem_of_app in Hin as [Hin|Hin].
  { apply elem_of_app in Hin as [Hin|Hin].
    - destruct (0 <? length (entryTags st))%nat.
      + apply list_elem_of_singleton in Hin. discriminate Hin.
      + by apply elem_of_nil in Hin.
    - apply list_elem_of_fmap in Hin as (? & [=] & _). }
  repeat (apply elem_of_cons in Hin as [Hin|Hin]);
    try discriminate Hin; try (by apply elem_of_nil in Hin);
    injection Hin as -> ->; simpl in Hg.
  - apply elem_of_app in Hg as [Hg|Hg].
    + by apply (Hbucket LogBucket).
    + repeat (apply elem_of_cons in Hg as [->|Hg]);
        try apply dotFree_reduceKey. by apply elem_of_nil in Hg.
  - by apply (Hbucket EventBucket).
  - by apply (Hbucket ErrorBucket).
  - by apply (Hbucket TraceBucket).
  - by apply (Hbucket LabelsBucket).
Qed.

Lemma nested_object_keys_hold_no_dot_witness :
  dotFree "c".
Proof.
  eapply (nested_object_keys_hold_no_dot
            (mkLogger (zap.String ecs.FieldLogger "app") [] [])
            [zap.String "a.b.c" "v"] InfoLevel (sortedRuntime ∅)
            _ _ "labels" (objects.AsObject [zap.String "c" "v"])
            (zap.String "c" "v")).
  - vm_compute. reflexivity.
  - do 5 right. left.
  - simpl. by left.
Defined.

(** X3: a call field whose key starts with [http.] but is none of the
    seven keys the mapper knows is lost: [appendField] puts it into the
    HTTP bucket and nowhere else, and the document of an HTTP bucket is the
    same with it and without it. *)
Theorem unknown_http_key_is_dropped f :
  strings.HasPrefix (zapcore.Key f) ecs.HTTPPrefix = true →
  zapcore.Key f ∉ requestKeys ++ responseKeys →
  (∀ a b, bucketOf b (appendField a f) =
            if decide (b = HTTPBucket) then bucketOf b a ++ [f]
            else bucketOf b a) ∧
  (∀ baseKey pre post w,
     objects.AsField baseKey (pre ++ f :: post) w =
       objects.AsField baseKey (pre ++ post) w).
Proof.
  intros Hhttp Hnot. split.
  - intros a b. rewrite appendField_bucketOf, (route_http _ Hhttp).
    destruct (decide (b = HTTPBucket)) as [->|]; [|done]. done.
  - intros baseKey pre post w.
    unfold objects.AsField, objects.MarshalJSON, bind.
    rewrite mapFields_drop; [done|].
    intros object. by apply HTTPECSMapper_unrecognized.
Qed.

Lemma unknown_http_key_is_dropped_witness :
  objects.AsField "http"
    [ecs.HTTPRequestMethod "GET"; zap.String "http.version" "1.1"]
    (sortedRuntime ∅) =
  objects.AsField "http" [ecs.HTTPRequestMethod "GET"] (sortedRuntime ∅).
Proof.
  apply (proj2 (unknown_http_key_is_dropped (zap.String "http.version" "1.1")
                  eq_refl ltac:(vm_compute; intros H;
                    repeat (apply elem_of_cons in H as [H|H]; [discriminate H|]);
                    by apply elem_of_nil in H))
           "http" [ecs.HTTPRequestMethod "GET"] []).
Defined.

(** X4: a field under one of the seven HTTP keys that has a non-empty
    string writes that string into the leaf of its key, whatever its
    [Interface] holds, and into no other leaf; the store is not touched.
    So of two fields under one key the later one decides the leaf. *)
Theorem HTTP_field_writes_its_leaf_only f object w :
  zapcore.Key f ∈ requestKeys ++ responseKeys →
  zapcore.String f ≠ EmptyString →
  ∃ object',
    objects.HTTPECSMapper f object w = Ok (object', w) ∧
    leafValue (zapcore.Key f) object' = zapcore.String f ∧
    ∀ k, k ≠ zapcore.Key f → leafValue k object' = leafValue k object.
Proof.
  intros Hkey Hstr.
  assert (objects.getValueAsString f w = Ok (zapcore.String f, w)) as Hget.
  { unfold objects.getValueAsString.
    by destruct (String.eqb_spec (zapcore.String f) EmptyString). }
  destruct (HTTPECSMapper_step f object w _ _ Hkey Hget)
    as (object' & Hrun & Hleaf & Hframe & _).
  by exists object'.
Qed.

Lemma HTTP_field_writes_its_leaf_only_witness :
  ∃ object',
    objects.HTTPECSMapper (ecs.HTTPResponseStatusCode "201")
      (objects.mkHTTP
         (Some (objects.mkRequest (Some objects.zeroBody) "POST" EmptyString))
         None)
      (sortedRuntime ∅) = Ok (object', sortedRuntime ∅) ∧
    leafValue ecs.FieldHTTPResponseStatusCode object' = "201" ∧
    leafValue ecs.FieldHTTPRequestMethod object' = "POST".
Proof.
  destruct (HTTP_field_writes_its_leaf_only (ecs.HTTPResponseStatusCode "201")
              (objects.mkHTTP
                 (Some (objects.mkRequest (Some objects.zeroBody) "POST"
                          EmptyString))
                 None)
              (sortedRuntime ∅))
    as (object' & Hrun & Hleaf & Hframe).
  - simpl. do 5 right. by left.
  - discriminate.
  - exists object'. split; [exact Hrun|]. split; [exact Hleaf|].
    rewrite Hframe; [reflexivity|discriminate].
Defined.

(** X5: an HTTP field with the empty string and no value is not left out:
    its leaf gets the text [<nil>], which is what [%v] prints for the nil
    [Interface], and the node of the leaf is allocated. *)
Theorem HTTP_field_of_empty_string_reads_nil f object w :
  zapcore.Key f ∈ requestKeys ++ responseKeys →
  zapcore.String f = EmptyString →
  zapcore.Interface f = zapcore.Nil →
  ∃ object',
    objects.HTTPECSMapper f object w = Ok (object', w) ∧
    leafValue (zapcore.Key f) object' = "<nil>".
Proof.
  intros Hkey Hstr Hnil.
  assert (objects.getValueAsString f w = Ok ("<nil>", w)) as Hget.
  { rewrite getValueAsString_plain by (by rewrite Hnil).
    by rewrite Hstr, Hnil. }
  destruct (HTTPECSMapper_step f object w _ _ Hkey Hget)
    as (object' & Hrun & Hleaf & _).
  by exists object'.
Qed.

Lemma HTTP_field_of_empty_string_reads_nil_witness :
  ∃ object',
    objects.HTTPECSMapper (ecs.HTTPRequestReferrer EmptyString) objects.zeroHTTP
      (sortedRuntime ∅) = Ok (object', sortedRuntime ∅) ∧
    leafValue ecs.FieldHTTPRequestReferrer object' = "<nil>".
Proof.
  apply (HTTP_field_of_empty_string_reads_nil
           (ecs.HTTPRequestReferrer EmptyString) objects.zeroHTTP
           (sortedRuntime ∅)).
  - simpl. do 3 right. by left.
  - reflexivity.
  - reflexivity.
Defined.

(** X6: the nodes of the HTTP object follow the keys of the bucket.  Under
    a sound runtime the loop of [MarshalJSON] returns; the object has a
    request node exactly when some field is under one of the four request
    keys, a response node exactly when some field is under one of the three
    response keys; and every node that is there has its body node, written
    to or not. *)
Theorem HTTP_nodes_follow_the_keys fields w :
  range_visits_keys w →
  ∃ target w',
    objects.mapFields fields objects.zeroHTTP w = Ok (target, w') ∧
    bodiesAllocated target ∧
    (is_Some (objects.Request target) ↔
       ∃ f, f ∈ fields ∧ zapcore.Key f ∈ requestKeys) ∧
    (is_Some (objects.Response target) ↔
       ∃ f, f ∈ fields ∧ zapcore.Key f ∈ responseKeys).
Proof.
  intros Hsound.
  destruct (mapFields_nodes fields objects.zeroHTTP w Hsound)
    as (target & w' & Hrun & Halloc & Hreq & Hresp).
  { split; intros r Hr; discriminate Hr. }
  exists target, w'. split; [exact Hrun|]. split; [exact Halloc|].
  split.
  - rewrite Hreq. split; [|by right].
    intros [Hsome|?]; [by destruct Hsome|done].
  - rewrite Hresp. split; [|by right].
    intros [Hsome|?]; [by destruct Hsome|done].
Qed.

Lemma HTTP_nodes_follow_the_keys_witness :
  ∃ target w',
    objects.mapFields [ecs.HTTPResponseStatusCode "404"] objects.zeroHTTP
      (sortedRuntime ∅) = Ok (target, w') ∧
    objects.Request target = None ∧ is_Some (objects.Response target).
Proof.
  destruct (HTTP_nodes_follow_the_keys [ecs.HTTPResponseStatusCode "404"]
              (sortedRuntime ∅))
    as (target & w' & Hrun & _ & Hreq & Hresp).
  - intros n h. reflexivity.
  - exists target, w'. split; [exact Hrun|]. split.
    + destruct (objects.Request target) eqn:Hr; [|reflexivity].
      exfalso. destruct (proj1 Hreq) as (f & Hf & Hkey); [by eexists|].
      apply list_elem_of_singleton in Hf. subst f.
      apply list_elem_of_In in Hkey. simpl in Hkey.
      repeat (destruct Hkey as [Hkey|Hkey]; [discriminate Hkey|]). exact Hkey.
    + apply Hresp. exists (ecs.HTTPResponseStatusCode "404").
      split; [by left|]. simpl. right. by left.
Defined.

(** X7: [SanitizeHeaders] is idempotent on the store: a second call on the
    same header objects changes nothing in them any more, and returns the
    same texts as the first, up to the order the runtime ranges in. *)
Theorem SanitizeHeaders_twice val w :
  range_visits_keys w →
  ∃ plain1 w1 plain2 w2,
    ecs.SanitizeHeaders val w = Ok (plain1, w1) ∧
    ecs.SanitizeHeaders val w1 = Ok (plain2, w2) ∧
    heap w2 = heap w1 ∧
    plain2 ≡ₚ plain1.
Proof.
  intros Hsound.
  destruct (sanitizeEach_run (unicodeLower w) (heap w) val [] w Hsound eq_refl)
    as (plain1 & w1 & Hrun1 & Hord1 & Hlow1 & Hout1 & Hheap1); [by left|].
  assert (range_visits_keys w1) as Hsound1.
  { unfold range_visits_keys. rewrite Hord1. exact Hsound. }
  destruct (sanitizeEach_run (unicodeLower w) (heap w1) val [] w1 Hsound1 Hlow1)
    as (plain2 & w2 & Hrun2 & _ & _ & Hout2 & Hheap2); [by left|].
  exists plain1, w1, plain2, w2. split; [exact Hrun1|]. split; [exact Hrun2|].
  split.
  - apply map_eq. intros x. rewrite Hheap2. case_decide as Hx; [|done].
    rewrite Hheap1, decide_True by done.
    destruct (heap w !! x); [|done]. simpl. by rewrite redact_idemp.
  - rewrite Hout2, Hout1. apply plainHeadersOf_redacted.
    intros l. rewrite Hheap1. case_decide; [by right|by left].
Qed.

Lemma SanitizeHeaders_twice_witness :
  ∃ plain1 w1 plain2 w2,
    ecs.SanitizeHeaders [2%positive]
      (sortedRuntime {[ 2%positive := {[ "Cookie" := ["id=7"] ]} ]})
      = Ok (plain1, w1) ∧
    ecs.SanitizeHeaders [2%positive] w1 = Ok (plain2, w2) ∧
    heap w2 = heap w1 ∧
    plain2 ≡ₚ plain1.
Proof.
  apply (SanitizeHeaders_twice [2%positive]
           (sortedRuntime {[ 2%positive := {[ "Cookie" := ["id=7"] ]} ]})).
  intros n h. reflexivity.
Defined.

(** X8: [SanitizeHeaders] returns one text per header, and never adds or
    removes a header name: the number of texts is the number of headers of
    the objects of the list, counted with repetition of objects, and every
    object has the same names after the call as before. *)
Theorem SanitizeHeaders_keeps_the_names val w :
  range_visits_keys w →
  ∃ plain w',
    ecs.SanitizeHeaders val w = Ok (plain, w') ∧
    length plain =
      sum_list_with (fun l => size (default ∅ (heap w !! l))) val ∧
    ∀ l, dom (default ∅ (heap w' !! l)) = dom (default ∅ (heap w !! l)).
Proof.
  intros Hsound.
  destruct (sanitizeEach_run (unicodeLower w) (heap w) val [] w Hsound eq_refl)
    as (plain & w' & Hrun & _ & _ & Hout & Hheap); [by left|].
  exists plain, w'. split; [exact Hrun|]. split.
  - by rewrite Hout, length_plainHeadersOf.
  - intros l. rewrite Hheap. case_decide; [|done].
    destruct (heap w !! l); simpl; [|done]. apply dom_redact.
Qed.

Lemma SanitizeHeaders_keeps_the_names_witness :
  ∃ plain w',
    ecs.SanitizeHeaders [1%positive; 3%positive; 1%positive]
      (sortedRuntime
         {[ 1%positive :=
              <["Cookie" := ["id=7"]]> (<["Accept" := ["*/*"]]> ∅) ]})
      = Ok (plain, w') ∧
    length plain = 4.
Proof.
  destruct (SanitizeHeaders_keeps_the_names
              [1%positive; 3%positive; 1%positive]
              (sortedRuntime
                 {[ 1%positive :=
                      <["Cookie" := ["id=7"]]> (<["Accept" := ["*/*"]]> ∅) ]}))
    as (plain & w' & Hrun & Hlen & _).
  - intros n h. reflexivity.
  - exists plain, w'. split; [exact Hrun|]. rewrite Hlen.
    vm_compute. reflexivity.
Defined.

(** X9: when no header of the listed objects has a secret name,
    [SanitizeHeaders] leaves the whole store as it was. *)
Theorem SanitizeHeaders_without_secrets_changes_nothing val w :
  range_visits_keys w →
  (∀ l h key, l ∈ val → heap w !! l = Some h → is_Some (h !! key) →
     strings.ToLower (unicodeLower w) key ∉ ecs.secretEcsKeysMap) →
  ∃ plain w',
    ecs.SanitizeHeaders val w = Ok (plain, w') ∧ heap w' = heap w.
Proof.
  intros Hsound Hno.
  destruct (sanitizeEach_run (unicodeLower w) (heap w) val [] w Hsound eq_refl)
    as (plain & w' & Hrun & _ & _ & _ & Hheap); [by left|].
  exists plain, w'. split; [exact Hrun|].
  apply map_eq. intros x. rewrite Hheap. case_decide as Hx; [|done].
  destruct (heap w !! x) as [h|] eqn:Hh; [|done]. simpl.
  rewrite redact_no_secret; [done|].
  intros key Hkey. unfold secret. apply bool_decide_eq_false_2.
  by apply (Hno x h key).
Qed.

Lemma SanitizeHeaders_without_secrets_changes_nothing_witness :
  ∃ plain w',
    ecs.SanitizeHeaders [1%positive]
      (sortedRuntime {[ 1%positive := {[ "Accept" := ["*/*"] ]} ]})
      = Ok (plain, w') ∧
    heap w' = {[ 1%positive := {[ "Accept" := ["*/*"] ]} ]}.
Proof.
  destruct (SanitizeHeaders_without_secrets_changes_nothing [1%positive]
              (sortedRuntime {[ 1%positive := {[ "Accept" := ["*/*"] ]} ]}))
    as (plain & w' & Hrun & Hheap);
    [| |exists plain, w'; split; [exact Hrun|exact Hheap]].
  - intros n h. reflexivity.
  - intros l h key Hl Hh Hkey.
    apply list_elem_of_singleton in Hl. subst l.
    simpl in Hh. rewrite lookup_singleton_eq in Hh. injection Hh as <-.
    destruct (decide (key = "Accept")) as [->|Hne].
    + vm_compute. intros H. discriminate H.
    + rewrite lookup_singleton_ne in Hkey by done. by destruct Hkey.
Defined.

(** X10: a field that carries the raw header objects is sanitized when it
    is encoded, not before: the mapper runs [SanitizeHeaders] on them, so
    the caller's objects are redacted by the log call, and the leaf of the
    key holds the texts between brackets, separated by spaces. *)
Theorem raw_headers_are_sanitized_when_encoded f val object w :
  range_visits_keys w →
  zapcore.Key f ∈ requestKeys ++ responseKeys →
  zapcore.String f = EmptyString →
  zapcore.Interface f = zapcore.HeaderSlice val →
  ∃ plain object' w',
    ecs.SanitizeHeaders val w = Ok (plain, w') ∧
    objects.HTTPECSMapper f object w = Ok (object', w') ∧
    leafValue (zapcore.Key f) object' = "[" +:+ strings.Join plain " " +:+ "]" ∧
    (∀ l h, l ∈ val → heap w !! l = Some h →
       heap w' !! l = Some (redact (unicodeLower w) h)).
Proof.
  intros Hsound Hkey Hstr Hval.
  destruct (sanitizeEach_run (unicodeLower w) (heap w) val [] w Hsound eq_refl)
    as (plain & w' & Hrun & _ & _ & _ & Hheap); [by left|].
  assert (objects.getValueAsString f w =
            Ok ("[" +:+ strings.Join plain " " +:+ "]", w')) as Hget.
  { unfold objects.getValueAsString. rewrite Hstr, Hval. simpl.
    unfold bind, ecs.SanitizeHeaders. by rewrite Hrun. }
  destruct (HTTPECSMapper_step f object w _ _ Hkey Hget)
    as (object' & Hmap & Hleaf & _).
  exists plain, object', w'. split; [exact Hrun|]. split; [exact Hmap|].
  split; [exact Hleaf|].
  intros l h Hl Hh. by rewrite Hheap, decide_True, Hh.
Qed.

Lemma raw_headers_are_sanitized_when_encoded_witness :
  ∃ plain object' w',
    ecs.SanitizeHeaders [1%positive]
      (sortedRuntime {[ 1%positive := {[ "Cookie" := ["id=7"] ]} ]})
      = Ok (plain, w') ∧
    objects.HTTPECSMapper
      (zap.Reflect ecs.FieldHTTPRequestBodyHeaders
         (zapcore.HeaderSlice [1%positive]))
      objects.zeroHTTP
      (sortedRuntime {[ 1%positive := {[ "Cookie" := ["id=7"] ]} ]})
      = Ok (object', w') ∧
    heap w' !! 1%positive = Some {[ "Cookie" := ["SECRET"] ]}.
Proof.
  destruct (raw_headers_are_sanitized_when_encoded
              (zap.Reflect ecs.FieldHTTPRequestBodyHeaders
                 (zapcore.HeaderSlice [1%positive]))
              [1%positive] objects.zeroHTTP
              (sortedRuntime {[ 1%positive := {[ "Cookie" := ["id=7"] ]} ]}))
    as (plain & object' & w' & Hrun & Hmap & _ & Hheap).
  - intros n h. reflexivity.
  - simpl. right. by left.
  - reflexivity.
  - reflexivity.
  - exists plain, object', w'. split; [exact Hrun|]. split; [exact Hmap|].
    etrans; [apply (Hheap 1%positive {[ "Cookie" := ["id=7"] ]});
             [by left|simpl; apply lookup_singleton_eq]|].
    vm_compute. reflexivity.
Defined.

(** X11: the two ways of logging request headers agree: building the
    field with [HTTPRequestBodyHeaders] and then mapping it gives the same
    HTTP object and the same store as mapping a field that carries the raw
    header objects under the same key. *)
Theorem headers_helper_and_raw_headers_agree val object w :
  bind (ecs.HTTPRequestBodyHeaders val)
    (fun field => objects.HTTPECSMapper field object) w =
  objects.HTTPECSMapper
    (zap.Reflect ecs.FieldHTTPRequestBodyHeaders (zapcore.HeaderSlice val))
    object w.
Proof.
  unfold ecs.HTTPRequestBodyHeaders, objects.HTTPECSMapper,
    objects.getValueAsString, bind, ret. simpl.
  by destruct (ecs.SanitizeHeaders val w) as [[plain w1]|].
Qed.

(** X12: where the fields of the constructors of [fields_ecs.go] end up.
    The event constructors go to the event bucket and [TraceID] to the trace
    bucket, under the last segment of their key; [ServiceName], whose key
    [service.name] has no recognized prefix, goes to the labels as [name];
    the HTTP constructors go to the HTTP bucket under their full key; and
    [Err] goes to the error bucket as [message], holding the text of the
    error, or no value at all for the nil error. *)
Theorem constructors_reach_their_buckets :
  routesTo ecs.ServiceName LabelsBucket "name" ∧
  routesTo ecs.EventAction EventBucket "action" ∧
  routesTo ecs.EventKind EventBucket "kind" ∧
  routesTo ecs.EventCategory EventBucket "category" ∧
  routesTo ecs.EventModule EventBucket "module" ∧
  routesTo ecs.EventType EventBucket "type" ∧
  routesTo ecs.EventOriginal EventBucket "original" ∧
  routesTo ecs.EventOutcome EventBucket "outcome" ∧
  routesTo ecs.TraceID TraceBucket "id" ∧
  routesTo ecs.HTTPRequestBodyContent HTTPBucket "http.request.body.content" ∧
  routesTo ecs.HTTPRequestMethod HTTPBucket "http.request.method" ∧
  routesTo ecs.HTTPRequestReferrer HTTPBucket "http.request.referrer" ∧
  routesTo ecs.HTTPResponseBodyContent HTTPBucket "http.response.body.content" ∧
  routesTo ecs.HTTPResponseStatusCode HTTPBucket "http.response.status_code" ∧
  routesTo ecs.HTTPResponseBodyReferrer HTTPBucket "http.response.body.referrer" ∧
  ∀ a err b',
    bucketOf b' (appendField a (ecs.Err err)) =
      if decide (b' = ErrorBucket)
      then bucketOf b' a ++
           [match err with
            | Some msg => zap.String "message" msg
            | None => zap.Reflect "message" zapcore.Nil
            end]
      else bucketOf b' a.
Proof.
  repeat split;
    try (intros a val b'; rewrite appendField_bucketOf;
         destruct b'; reflexivity).
  intros a err b'. rewrite appendField_bucketOf.
  destruct err, b'; reflexivity.
Qed.

(** X13: the level of a call shows in one place only.  The six log
    methods pass the message on as it is, and their field lists are the
    same but for the text of the level field that closes the [log] object:
    [debug], [info], [warn], [error], [panic], [fatal]. *)
Theorem log_methods_differ_in_the_level_only lg msg fields w :
  range_visits_keys w →
  (∀ f, firstTag fields = Some f → tagPayloadOk (zapcore.Interface f) = true) →
  ∃ pre logs post w',
    (∀ lvl, encodeFields lg fields lvl w =
              Ok (outputAt pre logs post lvl, w')) ∧
    Debug lg msg fields w = Ok ((msg, outputAt pre logs post DebugLevel), w') ∧
    Info lg msg fields w = Ok ((msg, outputAt pre logs post InfoLevel), w') ∧
    Warn lg msg fields w = Ok ((msg, outputAt pre logs post WarnLevel), w') ∧
    Error lg msg fields w = Ok ((msg, outputAt pre logs post ErrorLevel), w') ∧
    Panic_ lg msg fields w = Ok ((msg, outputAt pre logs post PanicLevel), w') ∧
    Fatal lg msg fields w = Ok ((msg, outputAt pre logs post FatalLevel), w').
Proof.
  intros Hsound Hok.
  destruct (encodeFields_closed_form lg fields DebugLevel w Hsound Hok)
    as (data & w' & Hhttp & _).
  assert (∀ lvl,
            encodeFields lg fields lvl w =
              Ok (outputAt
                    (tagsField (baseTags lg ++ callTags fields) ++
                     (objects.Plain <$> baseLabels lg))
                    (bucketOfCall LogBucket fields ++
                     [reduceKey (baseLoggerField lg)])
                    [ objects.RawMessageField "http" data;
                      objects.ObjectField "event"
                        (objects.AsObject (bucketOfCall EventBucket fields));
                      objects.ObjectField "error"
                        (objects.AsObject (bucketOfCall ErrorBucket fields));
                      objects.ObjectField "trace"
                        (objects.AsObject (bucketOfCall TraceBucket fields));
                      objects.ObjectField "labels"
                        (objects.AsObject (bucketOfCall LabelsBucket fields)) ]
                    lvl, w')) as Hall.
  { intros lvl.
    destruct (encodeFields_closed_form lg fields lvl w Hsound Hok)
      as (data' & w'' & Hhttp' & Hrun).
    rewrite Hhttp in Hhttp'. injection Hhttp' as <- <-.
    rewrite Hrun. unfold outputAt.
    rewrite <- !app_assoc. reflexivity. }
  eexists _, _, _, w'. split; [exact Hall|].
  unfold Debug, Info, Warn, Error, Panic_, Fatal, bind, ret.
  by rewrite !Hall.
Qed.

Lemma log_methods_differ_in_the_level_only_witness :
  ∃ pre logs post w',
    Warn (mkLogger (zap.String ecs.FieldLogger "app") [] []) "slow"
      [ecs.TraceID "t1"] (sortedRuntime ∅) =
      Ok (("slow", outputAt pre logs post WarnLevel), w') ∧
    Error (mkLogger (zap.String ecs.FieldLogger "app") [] []) "slow"
      [ecs.TraceID "t1"] (sortedRuntime ∅) =
      Ok (("slow", outputAt pre logs post ErrorLevel), w').
Proof.
  destruct (log_methods_differ_in_the_level_only
              (mkLogger (zap.String ecs.FieldLogger "app") [] []) "slow"
              [ecs.TraceID "t1"] (sortedRuntime ∅))
    as (pre & logs & post & w' & _ & _ & _ & Hwarn & Herror & _).
  - intros n h. reflexivity.
  - intros f Hf. discriminate Hf.
  - exists pre, logs, post, w'. split; [exact Hwarn|exact Herror].
Defined.

(** X14: [reduceKey] changes the key of a field and nothing else; the key
    it gives holds no dot; applying it again changes nothing; and it leaves
    a field as it is exactly when the key of the field holds no dot. *)
Theorem reduceKey_keeps_the_last_segment f :
  withKey (zapcore.Key f) (reduceKey f) = f ∧
  dotFree (zapcore.Key (reduceKey f)) ∧
  reduceKey (reduceKey f) = reduceKey f ∧
  (reduceKey f = f ↔ dotFree (zapcore.Key f)).
Proof.
  split; [by destruct f|]. split; [apply dotFree_reduceKey|]. split.
  - apply reduceKey_dotFree, dotFree_reduceKey.
  - split.
    + intros Heq. rewrite <- Heq. apply dotFree_reduceKey.
    + apply reduceKey_dotFree.
Qed.

(** X15: the deduplication is by full key, so it does not make the keys
    inside a nested object unique: two call fields for the labels whose
    keys differ but end in the same segment are both stored, under that
    one segment. *)
Theorem distinct_keys_may_share_a_label_key lg lvl f g w :
  range_visits_keys w →
  zapcore.Key f ≠ zapcore.Key g →
  zapcore.Key f ≠ ecs.FieldTags →
  zapcore.Key g ≠ ecs.FieldTags →
  route (zapcore.Key f) = LabelsBucket →
  route (zapcore.Key g) = LabelsBucket →
  zapcore.Key (reduceKey f) = zapcore.Key (reduceKey g) →
  ∃ out w' f' g',
    encodeFields lg [f; g] lvl w = Ok (out, w') ∧
    objects.ObjectField "labels" (objects.AsObject [f'; g']) ∈ out ∧
    zapcore.Key f' = zapcore.Key g' ∧
    f' = reduceKey f ∧ g' = reduceKey g.
Proof.
  intros Hsound Hfg Hf Hg Hrf Hrg Hkey.
  assert (firstTag [f; g] = None) as Hfirst.
  { unfold firstTag. simpl.
    destruct (String.eqb_spec (zapcore.Key f) ecs.FieldTags); [done|].
    by destruct (String.eqb_spec (zapcore.Key g) ecs.FieldTags). }
  destruct (encodeFields_closed_form lg [f; g] lvl w Hsound)
    as (data & w' & _ & Hrun).
  { intros h Hh. rewrite Hfirst in Hh. discriminate Hh. }
  assert (bucketOfCall LabelsBucket [f; g] = [reduceKey f; reduceKey g])
    as Hlabels.
  { unfold bucketOfCall, bucketSources. simpl.
    rewrite (filter_cons (fun g0 => zapcore.Key g0 ≠ zapcore.Key f) g).
    rewrite decide_True by (intros Heq; by apply Hfg).
    rewrite filter_nil.
    rewrite !filter_cons, filter_nil.
    rewrite (decide_True (P := _ ∧ _)) by (split; assumption).
    rewrite (decide_True (P := _ ∧ _)) by (split; assumption).
    reflexivity. }
  eexists _, w', (reduceKey f), (reduceKey g). split; [exact Hrun|].
  rewrite Hlabels. split; [|split; [exact Hkey|split; reflexivity]].
  apply elem_of_app. right. apply elem_of_app. right.
  do 5 right. by left.
Qed.

Lemma distinct_keys_may_share_a_label_key_witness :
  ∃ out w',
    encodeFields (mkLogger (zap.String ecs.FieldLogger "app") [] [])
      [zap.String "user.id" "u1"; zap.String "order.id" "o9"] InfoLevel
      (sortedRuntime ∅) = Ok (out, w') ∧
    objects.ObjectField "labels"
      (objects.AsObject [zap.String "id" "u1"; zap.String "id" "o9"]) ∈ out.
Proof.
  destruct (distinct_keys_may_share_a_label_key
              (mkLogger (zap.String ecs.FieldLogger "app") [] []) InfoLevel
              (zap.String "user.id" "u1") (zap.String "order.id" "o9")
              (sortedRuntime ∅))
    as (out & w' & f' & g' & Hrun & Hin & _ & -> & ->).
  - intros n h. reflexivity.
  - discriminate.
  - discriminate.
  - discriminate.
  - reflexivity.
  - reflexivity.
  - reflexivity.
  - exists out, w'. split; [exact Hrun|exact Hin].
Defined.
